(** * jenkinsfilelint: a shallow embedding of the linter client

    The development follows the Python sources
    [jenkinsfilelint/jenkins.py], [jenkinsfilelint/cli.py] and
    [jenkinsfilelint/exceptions.py].

    Conventions of the embedding:
    - a Python [str] is a list of code points restricted to U+0000..U+00FF
      (one [ascii] per code point); whitespace, decimal digits and [lower()]
      are the Unicode ones on that range;
    - a Python [int] is a [Z];
    - the two regular expressions of [Jenkins._parse_error] are terms of a
      small regex syntax, run by a backtracking matcher with the priorities
      of Python's [re] (greedy and lazy repetition, optional groups, [^] and
      [$] without MULTILINE, [.] with DOTALL);
    - exceptions are values of [exn]; effectful code is written in a state
      and exception monad over [world]. *)

From Stdlib Require Import List String Ascii ZArith NArith Lia Bool Arith.
From Stdlib Require Import Sorting.Permutation Sorting.Sorted.
From Stdlib Require Import DecimalString.
Import ListNotations.

Local Open Scope list_scope.

(* ===================================================================== *)
(** ** Python strings *)
(* ===================================================================== *)

Abbreviation str := (list ascii).

Definition txt (s : string) : str := list_ascii_of_string s.

Definition code (c : ascii) : nat := nat_of_ascii c.

(** [str.isspace()] / regex [\s] on U+0000..U+00FF. *)
Definition is_space (c : ascii) : bool :=
  let n := code c in
  ((9 <=? n) && (n <=? 13)) || ((28 <=? n) && (n <=? 32))
  || (n =? 133) || (n =? 160).

(** regex [\d] / the digits accepted by [int()] on U+0000..U+00FF. *)
Definition is_digit (c : ascii) : bool :=
  let n := code c in (48 <=? n) && (n <=? 57).

(** regex [.] under [re.DOTALL]. *)
Definition any_char (_ : ascii) : bool := true.

Definition lower_char (c : ascii) : ascii :=
  let n := code c in
  if ((65 <=? n) && (n <=? 90))
     || ((192 <=? n) && (n <=? 222) && negb (n =? 215))
  then ascii_of_nat (n + 32) else c.

(** [s.lower()] *)
Definition lower (s : str) : str := map lower_char s.

Definition str_eqb (a b : str) : bool :=
  if list_eq_dec ascii_dec a b then true else false.

(** [strip_prefix p s] is [Some r] when [s = p ++ r]. *)
Fixpoint strip_prefix (p s : str) : option str :=
  match p, s with
  | [], _ => Some s
  | a :: p', b :: s' => if Ascii.eqb a b then strip_prefix p' s' else None
  | _ :: _, [] => None
  end.

(** [s.startswith(p)] *)
Definition startswith (s p : str) : bool :=
  match strip_prefix p s with Some _ => true | None => false end.

(** [s.lstrip()], [s.rstrip()], [s.strip()] with the default character
    set (whitespace). *)
Fixpoint lstrip (s : str) : str :=
  match s with
  | c :: t => if is_space c then lstrip t else s
  | [] => []
  end.

Definition rstrip (s : str) : str := rev (lstrip (rev s)).

Definition strip (s : str) : str := rstrip (lstrip s).

(** [s.rstrip(chars)] for a one-character set. *)
Fixpoint lstrip_char (a : ascii) (s : str) : str :=
  match s with
  | c :: t => if Ascii.eqb c a then lstrip_char a t else s
  | [] => []
  end.

Definition rstrip_char (a : ascii) (s : str) : str :=
  rev (lstrip_char a (rev s)).

(** [s.split(sep)] for a one-character separator: the pieces between the
    separators, all of them (no [maxsplit]). *)
Fixpoint split (sep : ascii) (s : str) : list str :=
  match s with
  | [] => [[]]
  | c :: t =>
      if Ascii.eqb c sep then [] :: split sep t
      else match split sep t with
           | piece :: pieces => (c :: piece) :: pieces
           | [] => [[c]]
           end
  end.

(** [int(s)] on a string of decimal digits; [None] stands for the
    [ValueError] of any other string, and of a string of more digits than
    the interpreter converts: [sys.get_int_max_str_digits()], 4300 unless
    it is changed, which the program does not do; leading zeros count.
    (Signs, blanks and underscores, which [int] also accepts, never reach
    it here.) *)
Definition digit_value (c : ascii) : Z := Z.of_nat (code c) - 48.

Definition int_of_digits (s : str) : Z :=
  fold_left (fun acc c => 10 * acc + digit_value c)%Z s 0%Z.

Definition int_max_str_digits : Z := 4300.

Definition int_ (s : str) : option Z :=
  match s with
  | [] => None
  | _ =>
      if forallb is_digit s
         && (Z.of_nat (List.length s) <=? int_max_str_digits)%Z
      then Some (int_of_digits s)
      else None
  end.

(** [str(n)] for an [int]. *)
Definition str_of_int (z : Z) : str :=
  match z with
  | Z0 => txt "0"
  | Zpos p => txt (NilEmpty.string_of_uint (Pos.to_uint p))
  | Zneg p => "-"%char :: txt (NilEmpty.string_of_uint (Pos.to_uint p))
  end.

(* ===================================================================== *)
(** ** Exceptions ([exceptions.py] and the built-in ones the code meets) *)
(* ===================================================================== *)

(** What a [JenkinsError] or [ConfigError] was built from: a message, or
    the exception it wraps ([raise JenkinsError(ex) from ex]). *)
Inductive cause :=
| Msg (m : str)
| OSError (m : str)
| UnicodeDecodeError (m : str)
| RequestException (kind : string) (m : str).

Inductive exn :=
| JenkinsError (c : cause)
| ConfigError (c : cause)
| RequestError (kind : string) (m : str)   (* requests.RequestException *)
| KeyError (k : str)
| TypeError
| AttributeError
| IndexError
| ValueError.

(** [isinstance(ex, LinterError)] *)
Definition is_LinterError (e : exn) : bool :=
  match e with
  | JenkinsError _ | ConfigError _ => true
  | _ => false
  end.

Definition cause_str (c : cause) : str :=
  match c with
  | Msg m | OSError m | UnicodeDecodeError m | RequestException _ m => m
  end.

(** [str(ex)], what [logging.error(ex)] writes. *)
Definition exn_str (e : exn) : str :=
  match e with
  | JenkinsError c | ConfigError c => cause_str c
  | RequestError _ m => m
  | KeyError k => "'"%char :: k ++ ["'"%char]
  | TypeError => txt "TypeError"
  | AttributeError => txt "AttributeError"
  | IndexError => txt "IndexError"
  | ValueError => txt "ValueError"
  end.

Inductive outcome (A : Type) :=
| Ret (a : A)
| Raise (e : exn).
Arguments Ret {A} a.
Arguments Raise {A} e.

Definition obind {A B} (o : outcome A) (f : A -> outcome B) : outcome B :=
  match o with
  | Ret a => f a
  | Raise e => Raise e
  end.

(* ===================================================================== *)
(** ** Regular expressions, as Python's [re] runs them *)
(* ===================================================================== *)

Module Re.

Inductive regex :=
| Lit (s : str)                       (* a literal string *)
| Cls (p : ascii -> bool)             (* one character of a class *)
| Seq (a b : regex)                   (* a b *)
| Maybe (a : regex)                   (* a?  (greedy) *)
| Rep (greedy : bool) (p : ascii -> bool)  (* [p]*  and  [p]*? *)
| Grp (name : string) (a : regex)     (* a capturing group *)
| Bol                                 (* ^ without MULTILINE *)
| Eol.                                (* $ without MULTILINE *)

(** [p+] *)
Definition plus (p : ascii -> bool) : regex := Seq (Cls p) (Rep true p).

Definition caps := list (string * str).

(** A continuation receives the position reached, the text still to read
    and the groups captured so far. *)
Definition cont (R : Type) := nat -> str -> caps -> option R.

Fixpoint rep_greedy {R} (p : ascii -> bool) (k : cont R)
    (n : nat) (l : str) (c : caps) : option R :=
  match l with
  | x :: t =>
      if p x then
        match rep_greedy p k (S n) t c with
        | Some v => Some v
        | None => k n l c
        end
      else k n l c
  | [] => k n l c
  end.

Fixpoint rep_lazy {R} (p : ascii -> bool) (k : cont R)
    (n : nat) (l : str) (c : caps) : option R :=
  match k n l c with
  | Some v => Some v
  | None =>
      match l with
      | x :: t => if p x then rep_lazy p k (S n) t c else None
      | [] => None
      end
  end.

(** [$]: at the end of the text, or just before a newline that ends it. *)
Definition at_eol (l : str) : bool :=
  match l with
  | [] => true
  | [x] => Ascii.eqb x "010"%char
  | _ => false
  end.

Fixpoint run {R} (r : regex) (k : cont R) (n : nat) (l : str) (c : caps)
    : option R :=
  match r with
  | Lit s =>
      match strip_prefix s l with
      | Some l' => k (n + List.length s) l' c
      | None => None
      end
  | Cls p =>
      match l with
      | x :: t => if p x then k (S n) t c else None
      | [] => None
      end
  | Seq a b => run a (run b k) n l c
  | Maybe a =>
      match run a k n l c with
      | Some v => Some v
      | None => k n l c
      end
  | Rep true p => rep_greedy p k n l c
  | Rep false p => rep_lazy p k n l c
  | Grp name a =>
      run a (fun n' l' c' => k n' l' ((name, firstn (n' - n) l) :: c')) n l c
  | Bol => if n =? 0 then k n l c else None
  | Eol => if at_eol l then k n l c else None
  end.

(** A match object: where the match ended, what is left, the groups. *)
Record match_ := { m_end : nat; m_rest : str; m_caps : caps }.

(** [pattern.match(s)]: a match anchored at position 0. *)
Definition re_match (r : regex) (s : str) : option match_ :=
  run r (fun n l c => Some {| m_end := n; m_rest := l; m_caps := c |}) 0 s [].

(** [m.group(name)]: [None] when the group took no part in the match. *)
Fixpoint lookup_cap (name : string) (c : caps) : option str :=
  match c with
  | [] => None
  | (k, v) :: c' => if String.eqb k name then Some v else lookup_cap name c'
  end.

Definition group (m : match_) (name : string) : option str :=
  lookup_cap name (m_caps m).

(** [re.sub(pattern, repl, s)] for a plain replacement text: scan from
    the left, replace each match, resume after it.  The fuel is the number
    of scan steps left; [S (length s)] steps always suffice.  (After an
    empty match one character is copied; the pattern of this program
    never matches the empty string.) *)
Fixpoint sub_from (fuel : nat) (r : regex) (repl : str) (n : nat) (l : str)
    : str :=
  match fuel with
  | 0 => l
  | S fuel' =>
      match run r (fun n' l' _ => Some (n', l')) n l [] with
      | Some (n', l') =>
          if n' =? n then
            match l with
            | [] => repl
            | x :: t => repl ++ x :: sub_from fuel' r repl (S n) t
            end
          else repl ++ sub_from fuel' r repl n' l'
      | None =>
          match l with
          | [] => []
          | x :: t => x :: sub_from fuel' r repl (S n) t
          end
      end
  end.

Definition re_sub (r : regex) (repl s : str) : str :=
  sub_from (S (List.length s)) r repl 0 s.

End Re.
Import Re.

(** [matches r n c w rest c']: at position [n], with the groups [c], the
    pattern [r] can read [w] in front of [rest], and the groups are then
    [c']. *)
Fixpoint matches (r : regex) (n : nat) (c : caps) (w rest : str) (c' : caps)
    : Prop :=
  match r with
  | Lit s => w = s /\ c' = c
  | Cls p => exists x, w = [x] /\ p x = true /\ c' = c
  | Seq a b =>
      exists w1 w2 c1,
        w = w1 ++ w2 /\ matches a n c w1 (w2 ++ rest) c1
        /\ matches b (n + List.length w1) c1 w2 rest c'
  | Maybe a => matches a n c w rest c' \/ (w = [] /\ c' = c)
  | Rep _ p => forallb p w = true /\ c' = c
  | Grp name a => exists c1, matches a n c w rest c1 /\ c' = (name, w) :: c1
  | Bol => n = 0 /\ w = [] /\ c' = c
  | Eol => at_eol rest = true /\ w = [] /\ c' = c
  end.

Declare Scope re_scope.
Delimit Scope re_scope with re.
Infix ">>" := Seq (at level 61, right associativity) : re_scope.

(* ===================================================================== *)
(** ** [Jenkins._parse_error] *)
(* ===================================================================== *)

(** [r"^(?P<message>.*?)(:?\s*@ line\s*(?P<line>\d+), column (?P<column>\d+)\.)?$"]
    with [re.DOTALL].  The second group is written [(:?] in the source: a
    capturing group (number 2) that starts with an optional colon. *)
Definition message_re : regex :=
  (Bol
   >> Grp "message" (Rep false any_char)
   >> Maybe (Grp "2"
        (Maybe (Lit (txt ":"))
         >> Rep true is_space
         >> Lit (txt "@ line")
         >> Rep true is_space
         >> Grp "line" (plus is_digit)
         >> Lit (txt ", column ")
         >> Grp "column" (plus is_digit)
         >> Lit (txt ".")))
   >> Eol)%re.

(** [r"^Jenkinsfile content '.+' did not"] with [re.DOTALL]. *)
Definition content_re : regex :=
  (Bol
   >> Lit (txt "Jenkinsfile content '")
   >> plus any_char
   >> Lit (txt "' did not"))%re.

(** Lines 121-126: the [re.sub] call. *)
Definition normalize (message : str) : str :=
  re_sub content_re (txt "Jenkinsfile did not") message.

(** [if _x := match.group(name): x = int(_x)] *)
Definition int_group (m : match_) (name : string) (default : Z)
    : outcome Z :=
  match group m name with
  | Some ((_ :: _) as digits) =>
      match int_ digits with
      | Some z => Ret z
      | None => Raise ValueError
      end
  | _ => Ret default
  end.

(** Lines 111-119: the location of the message, and the message without it.
    When a group is [None], [match.group] returns [None] and the later
    [re.sub] would raise [TypeError]. *)
Definition locate (message : str) : outcome (Z * Z * str) :=
  match re_match message_re message with
  | Some m =>
      match group m "message" with
      | Some message' =>
          obind (int_group m "line" 1%Z) (fun line =>
          obind (int_group m "column" 1%Z) (fun column =>
          Ret (line, column, message')))
      | None => Raise TypeError
      end
  | None => Ret (1%Z, 1%Z, message)
  end.

Definition _parse_error (message : str) : outcome (Z * Z * str) :=
  obind (locate message) (fun '(line, column, message') =>
  Ret (line, column, normalize message')).

(* ===================================================================== *)
(** ** Parsed JSON values, with the operations the code applies to them *)
(* ===================================================================== *)

Set Warnings "-register-all".

(** What [response.json()] returns.  A [dict] keeps its insertion order
    ([items()] follows it), so an object is an association list.  Only the
    truth value of a non-integer number is ever observed. *)
Inductive json :=
| JNull
| JBool (b : bool)
| JInt (z : Z)
| JFloat (nonzero : bool)
| JStr (s : str)
| JArr (l : list json)
| JObj (o : list (str * json)).

(** Python truth value. *)
Definition truthy (j : json) : bool :=
  match j with
  | JNull => false
  | JBool b => b
  | JInt z => negb (Z.eqb z 0)
  | JFloat nonzero => nonzero
  | JStr s => match s with [] => false | _ => true end
  | JArr l => match l with [] => false | _ => true end
  | JObj o => match o with [] => false | _ => true end
  end.

(** [a or b] *)
Definition or_ (a b : json) : json := if truthy a then a else b.

Fixpoint assoc (k : str) (o : list (str * json)) : option json :=
  match o with
  | [] => None
  | (k', v) :: o' => if str_eqb k' k then Some v else assoc k o'
  end.

(** [d.get(k)]: only a [dict] has the method. *)
Definition dict_get (d : json) (k : str) : outcome json :=
  match d with
  | JObj o => match assoc k o with Some v => Ret v | None => Ret JNull end
  | _ => Raise AttributeError
  end.

(** [d[k]] for a string [k]. *)
Definition getitem (d : json) (k : str) : outcome json :=
  match d with
  | JObj o => match assoc k o with Some v => Ret v | None => Raise (KeyError k) end
  | _ => Raise TypeError
  end.

(** [for x in v]: the elements of a list, the keys of a dict, the
    characters of a string. *)
Definition iterate (v : json) : outcome (list json) :=
  match v with
  | JArr l => Ret l
  | JObj o => Ret (map (fun kv => JStr (fst kv)) o)
  | JStr s => Ret (map (fun c => JStr [c]) s)
  | _ => Raise TypeError
  end.

(** [d.items()] *)
Definition items (d : json) : outcome (list (str * json)) :=
  match d with
  | JObj o => Ret o
  | _ => Raise AttributeError
  end.

(** A comprehension clause: run [f] on each element in turn, stop at the
    first exception, concatenate the results. *)
Fixpoint for_each {A B} (f : A -> outcome (list B)) (l : list A)
    : outcome (list B) :=
  match l with
  | [] => Ret []
  | a :: l' =>
      obind (f a) (fun bs =>
      obind (for_each f l') (fun bs' => Ret (bs ++ bs')))
  end.

(** [sorted(l, key=key)]: Python's sort is stable; so is this insertion
    sort, and a stable sort has one possible result
    (see [stable_sort_unique]). *)
Fixpoint insert_by {A} (key : A -> Z) (x : A) (l : list A) : list A :=
  match l with
  | [] => [x]
  | y :: l' =>
      if (key x <=? key y)%Z then x :: y :: l' else y :: insert_by key x l'
  end.

Fixpoint sorted {A} (key : A -> Z) (l : list A) : list A :=
  match l with
  | [] => []
  | x :: l' => insert_by key x (sorted key l')
  end.

(* ===================================================================== *)
(** ** The world: server, file system, output *)
(* ===================================================================== *)

Record request := {
  rq_method : str;
  rq_url : str;
  rq_data : option (list (str * str));
  rq_headers : option (list (str * str));
  rq_auth : option (str * str);   (* [session.auth] when the call is made *)
  rq_verify : bool;               (* [session.verify] when the call is made *)
  rq_timeout : Z }.

Record response := {
  status_code : Z;
  text : str;
  body_json : option json }.    (* [None]: the body is not JSON *)

(** What the transport does with a request: it fails (time-out, refused
    connection, certificate error ...) or it delivers a final response. *)
Inductive transport :=
| Failed (kind : string) (m : str)
| Answered (r : response).

Inductive file_read :=
| Unreadable (m : str)          (* [path.open] raises [OSError] *)
| Undecodable (m : str)         (* [decode] raises [UnicodeDecodeError] *)
| Content (s : str).

(** What the program reads and cannot change.  [config] stands for
    [Config(args.config).get(args.profile)]. *)
Record env := {
  server : request -> transport;
  fs : str -> file_read;
  environ : string -> option str;
  config : option str -> str -> outcome (str * option str * option str) }.

(** What the program changes. *)
Record world := {
  stdout : list str;            (* one entry per [print] call *)
  logged : list str;            (* records emitted by [logging] *)
  debug_on : bool;              (* root logger at DEBUG *)
  opened : list str;            (* paths given to [path.open] *)
  sent : list request;          (* requests handed to the session *)
  closes : nat;                 (* calls of [session.close] *)
  warnings_off : bool }.        (* [urllib3.disable_warnings] was called *)

Definition world0 : world :=
  {| stdout := []; logged := []; debug_on := false; opened := [];
     sent := []; closes := 0; warnings_off := false |}.

Definition M (A : Type) := world -> outcome A * world.

Definition ret {A} (a : A) : M A := fun w => (Ret a, w).
Definition raise {A} (e : exn) : M A := fun w => (Raise e, w).
Definition lift {A} (o : outcome A) : M A := fun w => (o, w).

Definition bind {A B} (m : M A) (f : A -> M B) : M B :=
  fun w =>
    match m w with
    | (Ret a, w') => f a w'
    | (Raise e, w') => (Raise e, w')
    end.

Declare Scope m_scope.
Delimit Scope m_scope with m.
Notation "x <- m ;; k" := (bind m (fun x => k))
  (at level 100, m at next level, right associativity) : m_scope.
Notation "m ;; k" := (bind m (fun _ => k))
  (at level 100, right associativity) : m_scope.
Local Open Scope m_scope.

(** [try: m  except LinterError as ex: handler ex] *)
Definition try_LinterError {A} (m : M A) (handler : exn -> M A) : M A :=
  fun w =>
    match m w with
    | (Raise e, w') =>
        if is_LinterError e then handler e w' else (Raise e, w')
    | r => r
    end.

(** [try: m  except RequestException as ex: handler ex] *)
Definition try_RequestException {A} (m : M A) (handler : exn -> M A)
    : M A :=
  fun w =>
    match m w with
    | (Raise (RequestError kind msg), w') => handler (RequestError kind msg) w'
    | r => r
    end.

Definition print (s : str) : M unit :=
  fun w =>
    (Ret tt, {| stdout := stdout w ++ [s]; logged := logged w;
                debug_on := debug_on w; opened := opened w; sent := sent w;
                closes := closes w; warnings_off := warnings_off w |}).

Definition emit_log (s : str) : M unit :=
  fun w =>
    (Ret tt, {| stdout := stdout w; logged := logged w ++ [s];
                debug_on := debug_on w; opened := opened w; sent := sent w;
                closes := closes w; warnings_off := warnings_off w |}).

(** [logging.error(ex)]: the root logger is at DEBUG or at ERROR. *)
Definition logging_error (ex : exn) : M unit := emit_log (exn_str ex).

(** [logging.debug(msg)] *)
Definition logging_debug (msg : str) : M unit :=
  fun w => if debug_on w then emit_log msg w else (Ret tt, w).

(** [logging.getLogger().setLevel(...)] *)
Definition set_debug (b : bool) : M unit :=
  fun w =>
    (Ret tt, {| stdout := stdout w; logged := logged w;
                debug_on := b; opened := opened w; sent := sent w;
                closes := closes w; warnings_off := warnings_off w |}).

Definition disable_warnings : M unit :=
  fun w =>
    (Ret tt, {| stdout := stdout w; logged := logged w;
                debug_on := debug_on w; opened := opened w; sent := sent w;
                closes := closes w; warnings_off := true |}).

Definition note_open (path : str) : M unit :=
  fun w =>
    (Ret tt, {| stdout := stdout w; logged := logged w;
                debug_on := debug_on w; opened := opened w ++ [path];
                sent := sent w; closes := closes w;
                warnings_off := warnings_off w |}).

Definition note_sent (rq : request) : M unit :=
  fun w =>
    (Ret tt, {| stdout := stdout w; logged := logged w;
                debug_on := debug_on w; opened := opened w;
                sent := sent w ++ [rq]; closes := closes w;
                warnings_off := warnings_off w |}).

Definition note_close : M unit :=
  fun w =>
    (Ret tt, {| stdout := stdout w; logged := logged w;
                debug_on := debug_on w; opened := opened w;
                sent := sent w; closes := S (closes w);
                warnings_off := warnings_off w |}).

(* ===================================================================== *)
(** ** [requests]: the session *)
(* ===================================================================== *)

Record session := {
  auth : option (str * str);    (* [HTTPBasicAuth(username, password)] *)
  verify : bool }.

(** [Response.raise_for_status()] of the [requests] library: an
    [HTTPError] for a 4xx (client error) or a 5xx (server error) status,
    nothing for any other status.  (The library's message also gives the
    reason phrase and the URL.) *)
Definition raise_for_status (r : response) : option exn :=
  let s := status_code r in
  if ((400 <=? s) && (s <? 500))%Z then
    Some (RequestError "HTTPError" (str_of_int s ++ txt " Client Error"))
  else if ((500 <=? s) && (s <? 600))%Z then
    Some (RequestError "HTTPError" (str_of_int s ++ txt " Server Error"))
  else None.

(** [session.request(method, url, data=..., headers=..., timeout=...)]
    with the response hook of lines 68-70 installed. *)
Definition session_request (E : env) (s : session) (method url : str)
    (data headers : option (list (str * str))) (timeout : Z) : M response :=
  let rq := {| rq_method := method; rq_url := url; rq_data := data;
               rq_headers := headers; rq_auth := auth s;
               rq_verify := verify s; rq_timeout := timeout |} in
  note_sent rq ;;
  match server E rq with
  | Failed kind m => raise (RequestError kind m)
  | Answered r =>
      match raise_for_status r with
      | Some e => raise e
      | None => ret r
      end
  end.

(** [response.json()] *)
Definition response_json (r : response) : M json :=
  match body_json r with
  | Some j => ret j
  | None => raise (RequestError "JSONDecodeError" (txt "Expecting value"))
  end.

(* ===================================================================== *)
(** ** [class Jenkins] *)
(* ===================================================================== *)

Definition TIMEOUT : Z := 30.
Definition _CRUMB_PATH : str :=
  txt "crumbIssuer/api/xml?xpath=concat(//crumbRequestField,"
  ++ [ascii_of_nat 34] ++ txt ":" ++ [ascii_of_nat 34] ++ txt ",//crumb)".
Definition _VALIDATOR_PATH : str :=
  txt "pipeline-model-converter/validateJenkinsfile".
Definition _VALIDATOR_SUCCESS : str := txt "success".

Record Jenkins := {
  _url : str;
  _session : session;
  _timeout : Z;
  _crumb : list (str * str) }.

(** [exception -> JenkinsError(ex)] *)
Definition wrap_request_exception (e : exn) : exn :=
  match e with
  | RequestError kind m => JenkinsError (RequestException kind m)
  | _ => e
  end.

Definition _query (E : env) (self : Jenkins) (method path : str)
    (data headers : option (list (str * str))) : M response :=
  let url := _url self ++ txt "/" ++ path in
  try_RequestException
    (session_request E (_session self) method url data headers
       (_timeout self))
    (fun ex => raise (wrap_request_exception ex)).

(** [l[i]] *)
Definition index {A} (l : list A) (i : nat) : M A :=
  match nth_error l i with
  | Some a => ret a
  | None => raise IndexError
  end.

Definition crumb_error (url : str) : exn :=
  JenkinsError (Msg (txt "Unable to retrieve crumb from " ++ url
                     ++ txt ". Crumb issuer is probably blocked.")).

Definition _get_crumb (E : env) (self : Jenkins) : M (list (str * str)) :=
  response <- _query E self (txt "get") _CRUMB_PATH None None ;;
  if negb (startswith (lower (text response)) (txt "jenkins-crumb:")) then
    raise (crumb_error (_url self))
  else
    let crumb := split ":" (text response) in
    c0 <- index crumb 0 ;;
    c1 <- index crumb 1 ;;
    ret [(strip c0, strip c1)].

(** Lines 59-70: the session [__init__] configures.
    [if username:] holds for a non-empty string only;
    [password or (empty string)] replaces [None] by the empty string. *)
Definition new_session (username password : option str) (insecure : bool)
    : session :=
  {| auth :=
       match username with
       | Some ((_ :: _) as u) =>
           Some (u, match password with
                    | Some ((_ :: _) as p) => p
                    | _ => []
                    end)
       | _ => None
       end;
     verify := negb insecure |}.

(** [Jenkins.__init__]; [cli.main] leaves [timeout] at its default. *)
Definition Jenkins_init (E : env) (url : str) (username password : option str)
    (insecure : bool) (timeout : Z) : M Jenkins :=
  let self := {| _url := rstrip_char "/" url;
                 _session := new_session username password insecure;
                 _timeout := timeout;
                 _crumb := [] |} in
  (if insecure then disable_warnings else ret tt) ;;
  crumb <- _get_crumb E self ;;
  ret {| _url := _url self; _session := _session self;
         _timeout := _timeout self; _crumb := crumb |}.

(** A diagnostic: [(line, column, error, level)]. *)
Definition diagnostic := (Z * Z * str * str)%type.

Definition diag_line (d : diagnostic) : Z :=
  let '(line, _, _, _) := d in line.

(** [self._parse_error(message)] on a value of the payload: [re] accepts
    strings only. *)
Definition parse_error_value (message : json) : outcome (Z * Z * str) :=
  match message with
  | JStr s => _parse_error s
  | _ => Raise TypeError
  end.

(** Lines 163-170, innermost clauses: one [(level, messages)] item. *)
Definition item_diagnostics (item : str * json) : outcome (list diagnostic) :=
  let '(level, messages) := item in
  for_each
    (fun message =>
       obind (parse_error_value message) (fun '(line, column, error) =>
       Ret [(line, column, error, level)]))
    (match messages with JArr l => l | _ => [messages] end).

(** Lines 161-170: [data] and the list [_errors]. *)
Definition collect_errors (result : json) : outcome (list diagnostic) :=
  obind (dict_get result (txt "data")) (fun d =>
  let data := or_ d (JObj []) in
  obind (dict_get data (txt "errors")) (fun e =>
  obind (iterate (or_ e (JArr []))) (fun all_errors =>
  for_each
    (fun errors => obind (items errors) (for_each item_diagnostics))
    all_errors))).

(** [f"{path}:{line}:{column}: {level}: {error}"] *)
Definition format_diagnostic (path : str) (d : diagnostic) : str :=
  let '(line, column, error, level) := d in
  path ++ txt ":" ++ str_of_int line ++ txt ":" ++ str_of_int column
  ++ txt ": " ++ level ++ txt ": " ++ error.

(** Lines 171-172: the printing loop. *)
Fixpoint print_all (lines : list str) : M unit :=
  match lines with
  | [] => ret tt
  | l :: lines' => print l ;; print_all lines'
  end.

Definition print_diagnostics (path : str) (_errors : list diagnostic)
    : M unit :=
  print_all (map (format_diagnostic path) (sorted diag_line _errors)).

(** Lines 174-175: [result["data"]["result"] == "success"]. *)
Definition verdict (result : json) : outcome bool :=
  obind (getitem result (txt "data")) (fun data =>
  obind (getitem data (txt "result")) (fun status =>
  Ret (match status with
       | JStr s => str_eqb s _VALIDATOR_SUCCESS
       | _ => false
       end))).

(** Lines 160-175: what [lint] does with the parsed response. *)
Definition lint_result (path : str) (result : json) : M bool :=
  _errors <- lift (collect_errors result) ;;
  print_diagnostics path _errors ;;
  lift (verdict result).

(** Lines 143-152: read and decode the file. *)
Definition read_jenkinsfile (E : env) (path : str) : M str :=
  note_open path ;;
  match fs E path with
  | Unreadable m => raise (JenkinsError (OSError m))
  | Undecodable m => raise (JenkinsError (UnicodeDecodeError m))
  | Content s => ret s
  end.

Definition lint (E : env) (self : Jenkins) (path : str) : M bool :=
  jenkinsfile_content <- read_jenkinsfile E path ;;
  response <- _query E self (txt "post") _VALIDATOR_PATH
                (Some [(txt "jenkinsfile", jenkinsfile_content)])
                (Some (_crumb self)) ;;
  result <- response_json response ;;
  lint_result path result.

(** [__exit__]: a [Session] object is always true, so the session is
    closed; the method returns [None], which lets an exception of the
    block go on. *)
Definition __exit__ (self : Jenkins) : M unit := note_close.

(** [with self: body] *)
Definition with_ {A} (self : Jenkins) (body : M A) : M A :=
  fun w =>
    match body w with
    | (r, w1) =>
        match __exit__ self w1 with
        | (Ret _, w2) => (r, w2)
        | (Raise e, w2) => (Raise e, w2)
        end
    end.

(* ===================================================================== *)
(** ** [cli.main] *)
(* ===================================================================== *)

Record args := {
  a_config : option str;
  a_profile : str;
  a_insecure : bool;
  a_timeout : Z;
  a_debug : bool;
  a_jenkinsfile : list str }.

(** Lines 105-110: the loop over the files, for any [lint] method (the
    unit tests of the CLI replace it). *)
Fixpoint lint_files (lint_ : str -> M bool) (paths : list str)
    (status : bool) : M bool :=
  match paths with
  | [] => ret status
  | path :: paths' =>
      status' <- try_LinterError
                   (b <- lint_ path ;; ret (status && b))
                   (fun ex => logging_error ex ;; ret (status && false)) ;;
      lint_files lint_ paths' status'
  end.

(** Lines 103-110: the [with] block. *)
Definition lint_session (E : env) (jenkins : Jenkins) (paths : list str)
    : M bool :=
  with_ jenkins (lint_files (lint E jenkins) paths true).

(** Lines 84-93: where the server and the credentials come from;
    [None] stands for the early [return 1]. *)
Definition credentials (E : env) (a : args)
    : M (option (str * option str * option str)) :=
  match environ E "JENKINS_URL" with
  | Some ((_ :: _) as url) =>
      logging_debug (txt "Loading configuration from environment variables") ;;
      ret (Some (url, environ E "JENKINS_USERNAME",
                 environ E "JENKINS_PASSWORD"))
  | _ =>
      try_LinterError
        (c <- lift (config E (a_config a) (a_profile a)) ;; ret (Some c))
        (fun ex => logging_error ex ;; ret None)
  end.

(** Lines 95-101: the connection; [None] stands for the early [return 1]. *)
Definition connect (E : env) (a : args) (url : str)
    (username password : option str) : M (option Jenkins) :=
  try_LinterError
    (j <- Jenkins_init E url username password (a_insecure a) TIMEOUT ;;
     ret (Some j))
    (fun ex => logging_error ex ;; ret None).

Definition main (E : env) (a : args) : M Z :=
  set_debug (a_debug a) ;;
  oc <- credentials E a ;;
  match oc with
  | None => ret 1%Z
  | Some (url, username, password) =>
      oj <- connect E a url username password ;;
      match oj with
      | None => ret 1%Z
      | Some jenkins =>
          status <- lint_session E jenkins (a_jenkinsfile a) ;;
          ret (if status then 0%Z else 1%Z)
      end
  end.

(* ===================================================================== *)
(** ** Notions used in the statements *)
(* ===================================================================== *)

(** The last character of [s] satisfies [p]. *)
Definition ends_with (p : ascii -> bool) (s : str) : bool :=
  match rev s with
  | c :: _ => p c
  | [] => false
  end.

Definition is_colon (c : ascii) : bool := Ascii.eqb c ":".
Definition is_newline (c : ascii) : bool := Ascii.eqb c "010".

(** [@ line<sp>N, column M.] *)
Definition location (sp ln col : str) : str :=
  txt "@ line" ++ sp ++ ln ++ txt ", column " ++ col ++ txt ".".

(** A non-empty string of decimal digits. *)
Definition number (d : str) : Prop := d <> [] /\ forallb is_digit d = true.

(** [s] ends with a location. *)
Definition has_location (s : str) : Prop :=
  exists pre sp ln col,
    s = pre ++ location sp ln col
    /\ forallb is_space sp = true /\ number ln /\ number col.

(** [d] has no more digits than [int] converts. *)
Definition fits (d : str) : Prop :=
  (Z.of_nat (List.length d) <= int_max_str_digits)%Z.


(** [int(d)]: the number, or the [ValueError]. *)
Definition to_int (d : str) : outcome Z :=
  match int_ d with
  | Some z => Ret z
  | None => Raise ValueError
  end.

(** What the location step gives for the numbers [ln] and [col] and the
    text [m]: the line is converted first. *)
Definition located (ln col m : str) : outcome (Z * Z * str) :=
  obind (to_int ln) (fun line =>
  obind (to_int col) (fun column =>
  Ret (line, column, m))).

(** [pat] occurs in [s]. *)
Fixpoint occurs (pat s : str) : bool :=
  startswith s pat
  || match s with
     | [] => false
     | _ :: t => occurs pat t
     end.

(** The first character of [s], if any, is outside the class [p]. *)
Definition stops (p : ascii -> bool) (s : str) : Prop :=
  match s with
  | x :: _ => p x = false
  | [] => True
  end.

Definition not_at (c : ascii) : bool := negb (Ascii.eqb c "@").

Definition space_or_colon (c : ascii) : bool := is_space c || is_colon c.

Definition no_colon (s : str) : Prop :=
  forallb (fun c => negb (Ascii.eqb c ":")) s = true.

(** [s] without the colon that ends it, when one does. *)
Definition drop_colon (s : str) : str :=
  if ends_with is_colon s then removelast s else s.

(** The order of the sort, and the diagnostics of one key. *)
Definition key_le {A} (key : A -> Z) (a b : A) : Prop := (key a <= key b)%Z.

Definition has_key {A} (key : A -> Z) (k : Z) (a : A) : bool :=
  Z.eqb (key a) k.

(** The texts of the normalization. *)
Definition content_open : str := txt "Jenkinsfile content '".
Definition did_not : str := txt "' did not".
Definition replacement : str := txt "Jenkinsfile did not".

(** The part of [message_re] between [(:?] and [)]. *)
Definition suffix_re : regex :=
  (Maybe (Lit (txt ":"))
   >> Rep true is_space
   >> Lit (txt "@ line")
   >> Rep true is_space
   >> Grp "line" (plus is_digit)
   >> Lit (txt ", column ")
   >> Grp "column" (plus is_digit)
   >> Lit (txt "."))%re.

(** What follows the message in [message_re]. *)
Definition tail_re : regex := (Maybe (Grp "2" suffix_re) >> Eol)%re.

(** The request [_query] hands to the session. *)
Definition query_request (self : Jenkins) (method path : str)
    (data headers : option (list (str * str))) : request :=
  {| rq_method := method;
     rq_url := _url self ++ txt "/" ++ path;
     rq_data := data;
     rq_headers := headers;
     rq_auth := auth (_session self);
     rq_verify := verify (_session self);
     rq_timeout := _timeout self |}.

Definition crumb_request (self : Jenkins) : request :=
  query_request self (txt "get") _CRUMB_PATH None None.

Definition validation_request (self : Jenkins) (content : str) : request :=
  query_request self (txt "post") _VALIDATOR_PATH
    (Some [(txt "jenkinsfile", content)]) (Some (_crumb self)).

(** A status of the 4xx or 5xx class. *)
Definition error_status (s : Z) : Prop := (400 <= s < 600)%Z.

(** A status of the 2xx class. *)
Definition success_status (s : Z) : Prop := (200 <= s < 300)%Z.

(** The world after [lines] were printed. *)
Definition add_stdout (w : world) (lines : list str) : world :=
  {| stdout := stdout w ++ lines; logged := logged w;
     debug_on := debug_on w; opened := opened w; sent := sent w;
     closes := closes w; warnings_off := warnings_off w |}.



(** What [lint] returns for a file; it does not depend on what was
    printed or sent before (see [lint_outcome_eq]). *)
Definition lint_outcome (E : env) (self : Jenkins) (path : str)
    : outcome bool :=
  fst (lint E self path world0).

(** The per-file boolean of the loop: [True] when [lint] returned it. *)
Definition lint_passes (E : env) (self : Jenkins) (path : str) : bool :=
  match lint_outcome E self path with
  | Ret true => true
  | _ => false
  end.

(** The payload of the response contract: a list of objects, each
    mapping a severity to one message or to a list of messages. *)
Definition messages := (str + list str)%type.






(** ** Scenarios *)

Definition ok_response (t : str) (j : option json) : response :=
  {| status_code := 200; text := t; body_json := j |}.

(** A server that answers the crumb request with [crumb] and a
    validation request by [validate], from the content posted. *)
Definition scenario (crumb : transport) (validate : str -> transport)
    (files : str -> file_read) : env :=
  {| server := fun rq =>
       if str_eqb (rq_method rq) (txt "get") then crumb
       else match rq_data rq with
            | Some [(_, content)] => validate content
            | _ => Failed "ConnectionError" (txt "no content")
            end;
     fs := files;
     environ := fun k =>
       if String.eqb k "JENKINS_URL" then Some (txt "https://example.net/")
       else None;
     config := fun _ _ =>
       Raise (ConfigError (Msg (txt "Unable to load configuration file"))) |}.

Definition good_crumb : transport :=
  Answered (ok_response (txt "Jenkins-Crumb:0123456789abcdef") None).

Definition example_self : Jenkins :=
  {| _url := txt "https://example.net";
     _session := new_session None None false;
     _timeout := TIMEOUT;
     _crumb := [(txt "Jenkins-Crumb", txt "0123456789abcdef")] |}.

Definition example_args (files : list str) : args :=
  {| a_config := None; a_profile := txt "default"; a_insecure := false;
     a_timeout := TIMEOUT; a_debug := false; a_jenkinsfile := files |}.

(** A crumb whose value holds a colon. *)
Definition colon_crumb_env : env :=
  scenario (Answered (ok_response (txt "Jenkins-Crumb:ab:cd") None))
    (fun _ => Failed "ConnectionError" (txt "unused"))
    (fun _ => Unreadable (txt "unused")).

(** A server that answers every request with status 304 and no body. *)
Definition not_modified_env : env :=
  scenario
    (Answered {| status_code := 304; text := []; body_json := None |})
    (fun _ => Answered {| status_code := 304; text := []; body_json := None |})
    (fun _ => Content (txt "pipeline {}")).

(** A server that refuses every request with status 403. *)
Definition forbidden_env : env :=
  scenario
    (Answered {| status_code := 403; text := []; body_json := None |})
    (fun _ => Answered {| status_code := 403; text := []; body_json := None |})
    (fun _ => Content (txt "pipeline {}")).

(** The failure response of the specification. *)
Definition stage_errors_json : json :=
  JObj [(txt "status", JStr (txt "ok"));
        (txt "data",
         JObj [(txt "result", JStr (txt "failure"));
               (txt "errors",
                JArr [JObj [(txt "error",
                  JArr [JStr (txt "Expected a stage @ line 4, column 5.");
                        JStr (txt "No stages specified @ line 3, column 3.")
                       ])]])])].




(** [{"data":{"result":"success"}}] *)
Definition success_json : json :=
  JObj [(txt "data", JObj [(txt "result", JStr (txt "success"))])].

(** A server that answers every validation request with [j]. *)
Definition json_env (j : json) : env :=
  scenario good_crumb
    (fun _ => Answered (ok_response [] (Some j)))
    (fun _ => Content (txt "pipeline {}")).

(** Three files, each holding its own name; the server times out on the
    second one and accepts the others. *)
Definition timeout_env : env :=
  scenario good_crumb
    (fun content =>
       if str_eqb content (txt "jf2")
       then Failed "ConnectTimeout" (txt "timed out")
       else Answered (ok_response [] (Some success_json)))
    Content.

(** The server answers the first file with [{}], a response without
    [data], and accepts the others. *)
Definition no_data_env : env :=
  scenario good_crumb
    (fun content =>
       if str_eqb content (txt "jf1")
       then Answered (ok_response [] (Some (JObj [])))
       else Answered (ok_response [] (Some success_json)))
    Content.

(* ===================================================================== *)
(** ** [config.py] *)
(* ===================================================================== *)

(** What a [ConfigParser] answers once files are read.  [section_get s k]
    stands for [parser[s].get(k)]: the value, [None] when the section has
    no such key, or the exception the parser raises on the value. *)
Record config_parser := {
  has_section : str -> bool;
  section_get : str -> str -> outcome (option str) }.

(** A candidate file, as [ConfigParser.read] meets it. *)
Inductive config_file :=
| Missing               (* [open] raises [OSError]: the file is skipped *)
| Malformed (m : str)   (* the parser raises [configparser.Error] *)
| NotText           (* reading raises [UnicodeDecodeError] *)
| Readable.

(** What [ConfigParser.read] raises. *)
Inductive read_error :=
| ParsingError (m : str)   (* a [configparser.Error], with its message *)
| DecodeError.             (* a [UnicodeDecodeError], a [ValueError] *)

(** What [Config] reads: the two default paths (computed from the working
    and home directories when the class is defined), the candidate files,
    and the parser that results from reading a list of files. *)
Record config_env := {
  cwd_rc : str;
  home_rc : str;
  config_files : str -> config_file;
  parsed : list str -> config_parser }.

Definition _DEFAULT_CONFIG_PATHS (C : config_env) : list str :=
  [cwd_rc C; home_rc C].

Definition DEFAULT_PROFILE : str := txt "default".

(** [ConfigParser.read(paths)]: the files it could open, in order; a file
    that cannot be opened is skipped, the first file that cannot be
    decoded or parsed ends the reading with its exception ([inl]). *)
Fixpoint parser_read (files : str -> config_file) (paths : list str)
    : read_error + list str :=
  match paths with
  | [] => inr []
  | p :: paths' =>
      match files p with
      | Missing => parser_read files paths'
      | Malformed m => inl (ParsingError m)
      | NotText => inl DecodeError
      | Readable =>
          match parser_read files paths' with
          | inl e => inl e
          | inr read_ok => inr (p :: read_ok)
          end
      end
  end.

(** [l.pop()]: the last element; [None] stands for [IndexError]. *)
Definition pop {A} (l : list A) : option A :=
  match rev l with
  | x :: _ => Some x
  | [] => None
  end.

(** [sep.join(l)] *)
Fixpoint join (sep : str) (l : list str) : str :=
  match l with
  | [] => []
  | [a] => a
  | a :: l' => a ++ sep ++ join sep l'
  end.

(** ['s'[:n ^ 1]] *)
Definition plural (n : nat) : str := firstn (Nat.lxor n 1) (txt "s").

Definition unable_to_load (paths : list str) : str :=
  txt "Unable to load configuration file" ++ plural (List.length paths)
  ++ txt " " ++ join (txt " or ") paths.

Record Config := {
  _config_parser : config_parser;
  _path : str }.

(** [Config.__init__]; a [Path] is always true, so [if path] tells a path
    from [None].  [ConfigError(ex)] is kept by its message; an exception
    of [read] that is not a [configparser.Error] is not caught. *)
Definition Config_init (C : config_env) (path : option str)
    : outcome Config :=
  let paths :=
    match path with
    | Some p => [p]
    | None => _DEFAULT_CONFIG_PATHS C
    end in
  match parser_read (config_files C) paths with
  | inr read_ok =>
      match pop read_ok with
      | Some p => Ret {| _config_parser := parsed C read_ok; _path := p |}
      | None => Raise (ConfigError (Msg (unable_to_load paths)))
      end
  | inl (ParsingError m) => Raise (ConfigError (Msg m))
  | inl DecodeError => Raise ValueError
  end.

Definition missing_profile (profile path : str) : str :=
  txt "Missing profile `" ++ profile ++ txt "` in configuration file "
  ++ path.

Definition missing_url (profile path : str) : str :=
  txt "Missing `url` key for profile `" ++ profile
  ++ txt "` in configuration file " ++ path.

(** [Config.get] *)
Definition Config_get (self : Config) (profile : str)
    : outcome (str * option str * option str) :=
  if negb (has_section (_config_parser self) profile) then
    Raise (ConfigError (Msg (missing_profile profile (_path self))))
  else
    obind (section_get (_config_parser self) profile (txt "url"))
      (fun url =>
         match url with
         | Some ((_ :: _) as url) =>
             obind (section_get (_config_parser self) profile
                      (txt "username")) (fun username =>
             obind (section_get (_config_parser self) profile
                      (txt "password")) (fun password =>
             Ret (url, username, password)))
         | _ =>
             Raise (ConfigError (Msg (missing_url profile (_path self))))
         end).

(** [Config(args.config).get(args.profile)], the [config] of an
    environment of [cli.main]. *)
Definition load_config (C : config_env) (path : option str) (profile : str)
    : outcome (str * option str * option str) :=
  obind (Config_init C path) (fun c => Config_get c profile).

(** ** Further notions *)

(** The object [__init__] has built when it asks for the crumb. *)
Definition init_self (url : str) (username password : option str)
    (insecure : bool) (timeout : Z) : Jenkins :=
  {| _url := rstrip_char "/" url;
     _session := new_session username password insecure;
     _timeout := timeout;
     _crumb := [] |}.

(** The requests [lint] makes for a file: one, when the file is read. *)
Definition posts (E : env) (self : Jenkins) (path : str) : list request :=
  match fs E path with
  | Content content => [validation_request self content]
  | _ => []
  end.

Definition is_slash (c : ascii) : bool := Ascii.eqb c "/".

(** An environment without [JENKINS_URL], configured from files. *)
Definition file_env (C : config_env) (E : env) : env :=
  {| server := server E;
     fs := fs E;
     environ := fun k => if String.eqb k "JENKINS_URL" then None
                         else environ E k;
     config := load_config C |}.

(** One configuration file at [/etc/rc], with a profile [default] that
    has a [url] and a [username]. *)
Definition example_parser : config_parser :=
  {| has_section := fun s => str_eqb s (txt "default");
     section_get := fun s k =>
       if str_eqb s (txt "default") then
         if str_eqb k (txt "url") then Ret (Some (txt "https://example.net"))
         else if str_eqb k (txt "username") then Ret (Some (txt "admin"))
         else Ret None
       else Raise (KeyError s) |}.

Definition example_config : config_env :=
  {| cwd_rc := txt "/work/.jenkinsfilelintrc";
     home_rc := txt "/home/user/.config/jenkinsfilelintrc";
     config_files := fun p =>
       if str_eqb p (txt "/etc/rc") then Readable else Missing;
     parsed := fun _ => example_parser |}.


(* ===================================================================== *)
(** * Properties *)
(* ===================================================================== *)

Local Close Scope m_scope.

(** ** Strings *)

Lemma strip_prefix_Some (p s r : str) :
  strip_prefix p s = Some r -> s = p ++ r.
Proof.
  revert s; induction p as [|a p IH]; intros [|b s]; simpl; try congruence.
  destruct (Ascii.eqb_spec a b); try discriminate.
  intros H; apply IH in H; subst; reflexivity.
Qed.

Lemma strip_prefix_app (p r : str) : strip_prefix p (p ++ r) = Some r.
Proof.
  induction p as [|a p IH]; simpl; [reflexivity|].
  rewrite Ascii.eqb_refl; exact IH.
Qed.

Lemma str_eqb_eq (a b : str) : str_eqb a b = true <-> a = b.
Proof.
  unfold str_eqb; destruct (list_eq_dec ascii_dec a b); split;
    congruence.
Qed.

Lemma str_eqb_refl (a : str) : str_eqb a a = true.
Proof. apply str_eqb_eq; reflexivity. Qed.

(** ** The matcher against a declarative reading of the patterns *)

Module ReFacts.

Section Sound.
Context {R : Type}.

Lemma rep_greedy_sound p (k : cont R) l : forall n c v,
  rep_greedy p k n l c = Some v ->
  exists w rest, l = w ++ rest /\ forallb p w = true
                 /\ k (n + List.length w) rest c = Some v.
Proof.
  induction l as [|x t IH]; intros n c v H; simpl in H.
  - exists [], []; simpl; rewrite Nat.add_0_r; auto.
  - destruct (p x) eqn:Hp.
    + destruct (rep_greedy p k (S n) t c) eqn:Hr.
      * inversion H; subst. apply IH in Hr as (w & rest & -> & Hw & Hk).
        exists (x :: w), rest; simpl; rewrite Hp, Hw.
        rewrite <- Nat.add_succ_comm; auto.
      * exists [], (x :: t); simpl; rewrite Nat.add_0_r; auto.
    + exists [], (x :: t); simpl; rewrite Nat.add_0_r; auto.
Qed.

Lemma rep_lazy_sound p (k : cont R) l : forall n c v,
  rep_lazy p k n l c = Some v ->
  exists w rest, l = w ++ rest /\ forallb p w = true
                 /\ k (n + List.length w) rest c = Some v.
Proof.
  induction l as [|x t IH]; intros n c v H; simpl in H.
  - destruct (k n [] c) eqn:Hk; [|discriminate].
    exists [], []; simpl; rewrite Nat.add_0_r; split; [reflexivity|].
    split; [reflexivity|congruence].
  - destruct (k n (x :: t) c) eqn:Hk.
    + exists [], (x :: t); simpl; rewrite Nat.add_0_r.
      split; [reflexivity|]. split; [reflexivity|congruence].
    + destruct (p x) eqn:Hp; [|discriminate].
      apply IH in H as (w & rest & -> & Hw & Hk').
      exists (x :: w), rest; simpl; rewrite Hp, Hw.
      rewrite <- Nat.add_succ_comm; auto.
Qed.

End Sound.

(** Whatever the matcher returns comes from a reading of the pattern. *)
Lemma run_sound {R} (r : regex) : forall (k : cont R) n l c v,
  run r k n l c = Some v ->
  exists w rest c',
    l = w ++ rest /\ matches r n c w rest c'
    /\ k (n + List.length w) rest c' = Some v.
Proof.
  induction r as [s|p|a IHa b IHb|a IHa|g p|name a IHa| |];
    intros k n l c v H; simpl in H.
  - destruct (strip_prefix s l) as [l'|] eqn:Hs; [|discriminate].
    apply strip_prefix_Some in Hs; subst.
    exists s, l', c; simpl; auto.
  - destruct l as [|x t]; [discriminate|].
    destruct (p x) eqn:Hp; [|discriminate].
    exists [x], t, c; simpl. rewrite Nat.add_1_r.
    split; [reflexivity|]. split; [|assumption]. exists x; auto.
  - apply IHa in H as (w1 & rest1 & c1 & -> & Ha & H).
    apply IHb in H as (w2 & rest & c2 & -> & Hb & H).
    exists (w1 ++ w2), rest, c2.
    rewrite <- app_assoc, length_app, Nat.add_assoc.
    split; [reflexivity|]. split; [|assumption].
    exists w1, w2, c1; auto.
  - destruct (run a k n l c) eqn:Hr.
    + inversion H; subst.
      apply IHa in Hr as (w & rest & c' & -> & Ha & Hk).
      exists w, rest, c'; simpl; auto.
    + exists [], l, c; simpl; rewrite Nat.add_0_r; auto.
  - assert (Hx : exists w rest, l = w ++ rest /\ forallb p w = true
                   /\ k (n + List.length w) rest c = Some v).
    { destruct g; [eapply rep_greedy_sound|eapply rep_lazy_sound]; eauto. }
    destruct Hx as (w & rest & -> & Hw & Hk).
    exists w, rest, c; simpl; auto.
  - apply IHa in H as (w & rest & c' & -> & Ha & Hk).
    replace (n + List.length w - n) with (List.length w) in Hk by lia.
    rewrite firstn_app, Nat.sub_diag, firstn_all in Hk.
    simpl in Hk; rewrite app_nil_r in Hk.
    exists w, rest, ((name, w) :: c'); simpl.
    split; [reflexivity|]. split; [|assumption]. exists c'; auto.
  - destruct (Nat.eqb_spec n 0); [|discriminate].
    exists [], l, c; simpl; rewrite Nat.add_0_r; auto.
  - destruct (at_eol l) eqn:He; [|discriminate].
    exists [], l, c; simpl; rewrite Nat.add_0_r; auto.
Qed.

(** How the two repetitions choose among the readings. *)
Section Choice.
Context {R : Type}.

(** Greedy: the longest run of the class, when the continuation accepts
    it. *)
Lemma rep_greedy_all p (k : cont R) w rest : forall n c v,
  forallb p w = true ->
  match rest with x :: _ => p x = false | [] => True end ->
  k (n + List.length w) rest c = Some v ->
  rep_greedy p k n (w ++ rest) c = Some v.
Proof.
  induction w as [|x w IH]; intros n c v Hw Hrest Hk; simpl in *.
  - rewrite Nat.add_0_r in Hk. destruct rest as [|y t]; [assumption|].
    simpl; rewrite Hrest; assumption.
  - apply andb_true_iff in Hw as [Hx Hw]; rewrite Hx.
    rewrite (IH (S n) c v); auto.
    rewrite Nat.add_succ_comm; assumption.
Qed.

(** Greedy backtracking: every longer reading refused, the continuation
    decides at the current one. *)
Lemma rep_greedy_none p (k : cont R) l : forall n c,
  (forall w1 w2, l = w1 ++ w2 -> k (n + List.length w1) w2 c = None) ->
  rep_greedy p k n l c = None.
Proof.
  induction l as [|x t IH]; intros n c Hk; simpl.
  - specialize (Hk [] [] eq_refl); simpl in Hk.
    rewrite Nat.add_0_r in Hk; assumption.
  - assert (H0 : k n (x :: t) c = None).
    { specialize (Hk [] (x :: t) eq_refl); simpl in Hk.
      rewrite Nat.add_0_r in Hk; assumption. }
    destruct (p x); [|assumption].
    rewrite IH; [assumption|].
    intros w1 w2 ->. specialize (Hk (x :: w1) w2 eq_refl); simpl in Hk.
    rewrite Nat.add_succ_comm; assumption.
Qed.

Lemma rep_greedy_last p (k : cont R) w rest : forall n c v,
  forallb p w = true ->
  (forall w1 w2, rest = w1 ++ w2 -> w1 <> [] ->
     k (n + List.length w + List.length w1) w2 c = None) ->
  k (n + List.length w) rest c = Some v ->
  rep_greedy p k n (w ++ rest) c = Some v.
Proof.
  induction w as [|x w IH]; intros n c v Hw Hlater Hk; simpl in *.
  - rewrite Nat.add_0_r in *. destruct rest as [|y t]; [assumption|].
    simpl. destruct (p y); [|assumption].
    rewrite rep_greedy_none; [assumption|].
    intros w1 w2 ->. specialize (Hlater (y :: w1) w2 eq_refl).
    simpl in Hlater. rewrite Nat.add_succ_comm. apply Hlater; discriminate.
  - apply andb_true_iff in Hw as [Hx Hw]; rewrite Hx.
    rewrite (IH (S n) c v); auto.
    + intros w1 w2 E Hne. rewrite Nat.add_succ_comm. auto.
    + rewrite Nat.add_succ_comm; assumption.
Qed.

(** Lazy: the shortest reading the continuation accepts. *)
Lemma rep_lazy_first p (k : cont R) w rest : forall n c v,
  forallb p w = true ->
  (forall w1 w2, w = w1 ++ w2 -> w2 <> [] ->
     k (n + List.length w1) (w2 ++ rest) c = None) ->
  k (n + List.length w) rest c = Some v ->
  rep_lazy p k n (w ++ rest) c = Some v.
Proof.
  induction w as [|x w IH]; intros n c v Hw Hearly Hk; simpl in *.
  - rewrite Nat.add_0_r in Hk. destruct rest; simpl; rewrite Hk; reflexivity.
  - apply andb_true_iff in Hw as [Hx Hw].
    assert (H0 : k n (x :: w ++ rest) c = None).
    { specialize (Hearly [] (x :: w) eq_refl); simpl in Hearly.
      rewrite Nat.add_0_r in Hearly. apply Hearly; discriminate. }
    rewrite H0, Hx. apply IH; auto.
    + intros w1 w2 -> Hne. specialize (Hearly (x :: w1) w2 eq_refl Hne).
      simpl in Hearly. rewrite Nat.add_succ_comm; assumption.
    + rewrite Nat.add_succ_comm; assumption.
Qed.

(** Lazy repetition of [.] never gives up while the continuation accepts
    the end of the text. *)
Lemma rep_lazy_total (k : cont R) l : forall n c,
  (exists v, k (n + List.length l) [] c = Some v) ->
  exists v, rep_lazy any_char k n l c = Some v.
Proof.
  induction l as [|x t IH]; intros n c [v Hv]; simpl in *.
  - rewrite Nat.add_0_r in Hv; rewrite Hv; eauto.
  - destruct (k n (x :: t) c); [eauto|].
    apply IH. exists v. rewrite Nat.add_succ_comm; assumption.
Qed.

End Choice.

End ReFacts.
Import ReFacts.

(** ** Characters and runs of characters *)

(** A run of a class followed by something outside the class can be cut
    in one way only. *)
Lemma span_unique (p : ascii -> bool) (a a' b b' : str) :
  forallb p a = true -> forallb p a' = true -> stops p b -> stops p b' ->
  a ++ b = a' ++ b' -> a = a' /\ b = b'.
Proof.
  revert a'; induction a as [|x a IH]; intros [|y a']; simpl;
    intros Ha Ha' Hb Hb' E.
  - auto.
  - subst b; simpl in Hb. apply andb_true_iff in Ha' as [Hy _]; congruence.
  - subst b'; simpl in Hb'. apply andb_true_iff in Ha as [Hx _]; congruence.
  - apply andb_true_iff in Ha as [_ Ha]; apply andb_true_iff in Ha' as [_ Ha'].
    injection E as -> E. destruct (IH a' Ha Ha' Hb Hb' E) as [-> ->]; auto.
Qed.

Lemma forallb_rev (p : ascii -> bool) (s : str) :
  forallb p (rev s) = forallb p s.
Proof.
  induction s as [|x s IH]; simpl; [reflexivity|].
  rewrite forallb_app, IH; simpl. rewrite andb_true_r, andb_comm; reflexivity.
Qed.


(** A text is cut at its last [@] in one way only. *)
Lemma last_at_unique (a a' t t' : str) :
  forallb not_at t = true -> forallb not_at t' = true ->
  a ++ "@"%char :: t = a' ++ "@"%char :: t' -> a = a' /\ t = t'.
Proof.
  intros Ht Ht' E. apply (f_equal (@rev ascii)) in E.
  rewrite !rev_app_distr in E; simpl in E; rewrite <- !app_assoc in E.
  simpl in E.
  destruct (span_unique not_at (rev t) (rev t') ("@"%char :: rev a)
              ("@"%char :: rev a')) as [E1 E2]; auto.
  - rewrite forallb_rev; assumption.
  - rewrite forallb_rev; assumption.
  - reflexivity.
  - reflexivity.
  - injection E2 as E2. apply (f_equal (@rev ascii)) in E1, E2.
    rewrite !rev_involutive in E1, E2. auto.
Qed.

Lemma space_not_at c : is_space c = true -> not_at c = true.
Proof. destruct c as [[] [] [] [] [] [] [] []]; vm_compute; congruence. Qed.

Lemma digit_not_at c : is_digit c = true -> not_at c = true.
Proof. destruct c as [[] [] [] [] [] [] [] []]; vm_compute; congruence. Qed.

Lemma digit_not_space c : is_digit c = true -> is_space c = false.
Proof. destruct c as [[] [] [] [] [] [] [] []]; vm_compute; congruence. Qed.

Lemma forallb_impl (p q : ascii -> bool) (s : str) :
  (forall c, p c = true -> q c = true) ->
  forallb p s = true -> forallb q s = true.
Proof.
  intros Hpq; induction s as [|x s IH]; simpl; [reflexivity|].
  intros H; apply andb_true_iff in H as [Hx Hs].
  rewrite (Hpq x Hx), (IH Hs); reflexivity.
Qed.

Lemma ends_with_snoc p (s : str) x : ends_with p (s ++ [x]) = p x.
Proof. unfold ends_with; rewrite rev_app_distr; reflexivity. Qed.

Lemma at_eol_cases (l : str) :
  at_eol l = true -> l = [] \/ l = ["010"%char].
Proof.
  destruct l as [|x [|y l]]; simpl; auto; [|discriminate].
  destruct (Ascii.eqb_spec x "010"); [subst; auto|discriminate].
Qed.

Lemma at_eol_not_at (l : str) : at_eol l = true -> forallb not_at l = true.
Proof. intros H; apply at_eol_cases in H as [->| ->]; reflexivity. Qed.

(** [s.rstrip()] removes a run of whitespace that ends the text, all of
    it. *)
Lemma lstrip_split (s : str) :
  exists sp, s = sp ++ lstrip s /\ forallb is_space sp = true
             /\ stops is_space (lstrip s).
Proof.
  induction s as [|x s (sp & E & Hsp & Hst)]; simpl.
  - exists []; simpl; auto.
  - destruct (is_space x) eqn:Hx.
    + exists (x :: sp); simpl; rewrite Hx, Hsp, <- E; auto.
    + exists []; simpl; auto.
Qed.

Lemma rstrip_split (s : str) :
  exists sp, s = rstrip s ++ sp /\ forallb is_space sp = true
             /\ ends_with is_space (rstrip s) = false.
Proof.
  destruct (lstrip_split (rev s)) as (sp & E & Hsp & Hst).
  exists (rev sp). unfold rstrip, ends_with. rewrite rev_involutive.
  split; [|split].
  - rewrite <- rev_app_distr, <- E, rev_involutive; reflexivity.
  - rewrite forallb_rev; assumption.
  - destruct (lstrip (rev s)); simpl in *; auto.
Qed.

(** ** Digits and [int] *)



Lemma int_number (d : str) :
  number d -> fits d -> int_ d = Some (int_of_digits d).
Proof.
  intros [Hne Hd] Hf. unfold int_. destruct d; [congruence|].
  rewrite Hd. apply Z.leb_le in Hf. rewrite Hf. reflexivity.
Qed.

Lemma int_long (d : str) : number d -> ~ fits d -> int_ d = None.
Proof.
  intros [Hne Hd] Hf. unfold int_. destruct d; [reflexivity|].
  rewrite Hd. destruct (Z.leb_spec (Z.of_nat (List.length (a :: d)))
                          int_max_str_digits) as [H|H]; [|reflexivity].
  contradiction.
Qed.

Lemma fits_dec (d : str) : fits d \/ ~ fits d.
Proof. unfold fits. lia. Qed.

(** The two outcomes of the conversions. *)
Lemma located_fits (ln col m : str) :
  number ln -> number col -> fits ln -> fits col ->
  located ln col m = Ret (int_of_digits ln, int_of_digits col, m).
Proof.
  intros Hln Hcol Hfl Hfc. unfold located, to_int.
  rewrite (int_number _ Hln Hfl), (int_number _ Hcol Hfc). reflexivity.
Qed.

Lemma located_long (ln col m : str) :
  number ln -> number col -> ~ fits ln \/ ~ fits col ->
  located ln col m = Raise ValueError.
Proof.
  intros Hln Hcol H. unfold located, to_int.
  destruct (fits_dec ln) as [Hfl|Hfl].
  - rewrite (int_number _ Hln Hfl). destruct H as [H|H]; [contradiction|].
    rewrite (int_long _ Hcol H). reflexivity.
  - rewrite (int_long _ Hln Hfl). reflexivity.
Qed.

Lemma located_cases (ln col m : str) :
  number ln -> number col ->
  (fits ln /\ fits col
   /\ located ln col m = Ret (int_of_digits ln, int_of_digits col, m))
  \/ ((~ fits ln \/ ~ fits col) /\ located ln col m = Raise ValueError).
Proof.
  intros Hln Hcol.
  destruct (fits_dec ln) as [Hfl|Hfl]; [destruct (fits_dec col) as [Hfc|Hfc]|].
  - left. auto using located_fits.
  - right. split; [auto|]. apply located_long; auto.
  - right. split; [auto|]. apply located_long; auto.
Qed.

(** ** The location pattern *)

Lemma message_re_eq :
  message_re
  = (Bol >> Grp "message" (Rep false any_char) >> tail_re)%re.
Proof. reflexivity. Qed.

Lemma plus_shape p n c w rest c' :
  matches (plus p) n c w rest c' ->
  (w <> [] /\ forallb p w = true) /\ c' = c.
Proof.
  simpl. intros (w1 & w2 & c1 & -> & (x & -> & Hx & ->) & Hw2 & ->).
  simpl; rewrite Hx, Hw2. repeat split; discriminate.
Qed.

(** What the second group reads, and the groups it sets. *)
Lemma suffix_shape n c w rest c' :
  matches suffix_re n c w rest c' ->
  exists c0 sp1 sp2 ln col,
    w = c0 ++ sp1 ++ location sp2 ln col
    /\ (c0 = [] \/ c0 = txt ":")
    /\ forallb is_space sp1 = true /\ forallb is_space sp2 = true
    /\ number ln /\ number col
    /\ c' = ("column"%string, col) :: ("line"%string, ln) :: c.
Proof.
  unfold suffix_re. cbn [matches].
  intros (c0 & ? & ? & -> & Hc0 & sp1 & ? & ? & -> & (Hsp1 & ->)
          & ? & ? & ? & -> & (-> & ->) & sp2 & ? & ? & -> & (Hsp2 & ->)
          & ln & ? & ? & -> & (? & Hln & ->)
          & ? & ? & ? & -> & (-> & ->)
          & col & ? & ? & -> & (? & Hcol & ->) & -> & ->).
  apply plus_shape in Hln as [Hln ->], Hcol as [Hcol ->].
  exists c0, sp1, sp2, ln, col. unfold location.
  repeat split; try tauto; try apply Hln; try apply Hcol.
  destruct Hc0 as [[_ ->]|[_ ->]]; reflexivity.
Qed.

(** The text after [@] in a location holds no other [@]. *)
Lemma location_tail_not_at sp ln col nl :
  forallb is_space sp = true -> number ln -> number col ->
  forallb not_at nl = true ->
  forallb not_at
    (txt " line" ++ sp ++ ln ++ txt ", column " ++ col ++ txt "." ++ nl)
  = true.
Proof.
  intros Hsp [_ Hln] [_ Hcol] Hnl.
  rewrite !forallb_app.
  rewrite (forallb_impl _ _ _ space_not_at Hsp),
    (forallb_impl _ _ _ digit_not_at Hln),
    (forallb_impl _ _ _ digit_not_at Hcol), Hnl.
  reflexivity.
Qed.

Lemma location_at sp ln col nl :
  location sp ln col ++ nl
  = "@"%char
    :: txt " line" ++ sp ++ ln ++ txt ", column " ++ col ++ txt "." ++ nl.
Proof. unfold location. rewrite <- !app_assoc. reflexivity. Qed.

(** Two texts that end with a location agree on its parts. *)
Lemma location_unique a a' sp sp' ln ln' col col' nl nl' :
  forallb is_space sp = true -> forallb is_space sp' = true ->
  number ln -> number ln' -> number col -> number col' ->
  at_eol nl = true -> at_eol nl' = true ->
  a ++ location sp ln col ++ nl = a' ++ location sp' ln' col' ++ nl' ->
  a = a' /\ ln = ln' /\ col = col' /\ nl = nl'.
Proof.
  intros Hsp Hsp' Hln Hln' Hcol Hcol' Hnl Hnl' E.
  rewrite !location_at in E.
  apply last_at_unique in E as [-> E];
    try (apply location_tail_not_at; auto using at_eol_not_at).
  split; [reflexivity|].
  apply app_inv_head in E.
  destruct Hln as [Hln0 Hln], Hln' as [Hln0' Hln'].
  destruct Hcol as [Hcol0 Hcol], Hcol' as [Hcol0' Hcol'].
  apply (span_unique is_space) in E as [_ E]; auto.
  2:{ destruct ln as [|x ?]; [congruence|]. simpl in *.
      apply andb_true_iff in Hln as [Hx _]. apply digit_not_space, Hx. }
  2:{ destruct ln' as [|x ?]; [congruence|]. simpl in *.
      apply andb_true_iff in Hln' as [Hx _]. apply digit_not_space, Hx. }
  apply (span_unique is_digit) in E as [-> E]; auto; try reflexivity.
  split; [reflexivity|].
  apply app_inv_head in E.
  apply (span_unique is_digit) in E as [-> E]; auto; try reflexivity.
  split; [reflexivity|].
  simpl in E; congruence.
Qed.

(** *** Where the matcher accepts *)

Section Accepts.
Context {R : Type}.

Lemma lit_accepts (k : cont R) s l n c :
  k (n + List.length s) l c <> None -> run (Lit s) k n (s ++ l) c <> None.
Proof. simpl; rewrite strip_prefix_app; auto. Qed.

Lemma rep_accepts p (k : cont R) w rest n c :
  forallb p w = true -> stops p rest ->
  k (n + List.length w) rest c <> None ->
  run (Rep true p) k n (w ++ rest) c <> None.
Proof.
  intros Hw Hst Hk. destruct (k (n + List.length w) rest c) eqn:E;
    [|congruence].
  simpl. rewrite (rep_greedy_all p k w rest n c r); auto; discriminate.
Qed.

Lemma plus_accepts p (k : cont R) w rest n c :
  w <> [] -> forallb p w = true -> stops p rest ->
  k (n + List.length w) rest c <> None ->
  run (plus p) k n (w ++ rest) c <> None.
Proof.
  intros Hne Hw Hst Hk. destruct w as [|x w]; [congruence|].
  simpl in Hw; apply andb_true_iff in Hw as [Hx Hw].
  unfold plus; cbn [run app]. rewrite Hx.
  apply (rep_accepts p k w rest (S n) c); auto.
  rewrite Nat.add_succ_comm; exact Hk.
Qed.

Lemma maybe_accepts a (k : cont R) l n c :
  run a k n l c <> None \/ k n l c <> None -> run (Maybe a) k n l c <> None.
Proof.
  simpl. destruct (run a k n l c); [discriminate|]. intros [H|H]; auto.
Qed.

Lemma number_stops_space d rest : number d -> stops is_space (d ++ rest).
Proof.
  intros [Hne Hd]. destruct d as [|x d]; [congruence|]. simpl in *.
  apply andb_true_iff in Hd as [Hx _]. apply digit_not_space, Hx.
Qed.

(** The second group accepts a location, whatever precedes it among an
    optional colon and whitespace. *)
Lemma suffix_accepts (k : cont R) c0 sp1 sp2 ln col rest n c :
  (c0 = [] \/ c0 = txt ":") ->
  forallb is_space sp1 = true -> forallb is_space sp2 = true ->
  number ln -> number col ->
  (forall n' c', k n' rest c' <> None) ->
  run suffix_re k n (c0 ++ sp1 ++ location sp2 ln col ++ rest) c <> None.
Proof.
  intros Hc0 Hsp1 Hsp2 Hln Hcol Hk.
  unfold suffix_re, location. rewrite <- !app_assoc. cbn [run].
  assert (Hgo : forall n0,
    run (Rep true is_space)
      (run (Lit (txt "@ line"))
         (run (Rep true is_space)
            (fun n1 l1 c1 =>
               run (plus is_digit)
                 (fun n' l' c' =>
                    run (Lit (txt ", column "))
                      (fun n2 l2 c2 =>
                         run (plus is_digit)
                           (fun n3 l3 c3 =>
                              run (Lit (txt ".")) k n3 l3
                                (("column"%string, firstn (n3 - n2) l2) :: c3))
                           n2 l2 c2)
                      n' l' (("line"%string, firstn (n' - n1) l1) :: c'))
                 n1 l1 c1)))
      n0 (sp1 ++ txt "@ line" ++ sp2 ++ ln ++ txt ", column " ++ col
          ++ txt "." ++ rest) c <> None).
  { intros n0.
    apply rep_accepts; [assumption|reflexivity|].
    apply lit_accepts.
    apply rep_accepts; [assumption|apply number_stops_space; assumption|].
    apply plus_accepts; [apply Hln|apply Hln|reflexivity|].
    apply lit_accepts.
    apply plus_accepts; [apply Hcol|apply Hcol|reflexivity|].
    apply lit_accepts. apply Hk. }
  destruct Hc0 as [-> | ->].
  - simpl app at 1.
    match goal with |- match ?x with _ => _ end <> None =>
      destruct x; [discriminate|] end.
    apply Hgo.
  - rewrite strip_prefix_app.
    match goal with |- match ?x with _ => _ end <> None =>
      destruct x eqn:E; [discriminate|] end.
    exfalso; revert E; apply Hgo.
Qed.

Lemma tail_accepts (k : cont R) c0 sp1 sp2 ln col nl n c :
  (c0 = [] \/ c0 = txt ":") ->
  forallb is_space sp1 = true -> forallb is_space sp2 = true ->
  number ln -> number col -> at_eol nl = true ->
  (forall n' c', k n' nl c' <> None) ->
  run tail_re k n (c0 ++ sp1 ++ location sp2 ln col ++ nl) c <> None.
Proof.
  intros Hc0 Hsp1 Hsp2 Hln Hcol Hnl Hk.
  unfold tail_re. cbn [run]. 
  match goal with |- match ?x with _ => _ end <> None =>
    destruct x eqn:E; [discriminate|] end.
  exfalso; revert E.
  apply suffix_accepts; auto.
  intros n' c'; cbn [run]. rewrite Hnl. apply Hk.
Qed.

End Accepts.

(** *** Where the matcher refuses, and what it captures *)

Lemma location_length sp ln col nl :
  2 <= List.length (location sp ln col ++ nl).
Proof. unfold location. rewrite !length_app. simpl. lia. Qed.

(** What [tail_re] can read of a text that ends with a location: the
    location, with the whitespace and the optional colon before it. *)
Lemma tail_shape n c a sp ln col nl w rest c' :
  forallb is_space sp = true -> number ln -> number col ->
  at_eol nl = true ->
  a ++ location sp ln col ++ nl = w ++ rest ->
  matches tail_re n c w rest c' ->
  exists c0 sp1,
    a = c0 ++ sp1 /\ (c0 = [] \/ c0 = txt ":")
    /\ forallb is_space sp1 = true /\ rest = nl
    /\ c' = ("2"%string, w) :: ("column"%string, col)
            :: ("line"%string, ln) :: c.
Proof.
  intros Hsp Hln Hcol Hnl E Hm.
  unfold tail_re in Hm; cbn [matches] in Hm.
  destruct Hm as (w1 & w2 & c1 & -> & [(c2 & Hs & ->)|[-> ->]]
                  & (Heol & -> & ->)).
  - apply suffix_shape in Hs
      as (c0 & sp1 & sp2 & ln' & col' & -> & Hc0 & Hsp1 & Hsp2 & Hln'
          & Hcol' & ->).
    rewrite app_nil_r in *.
    replace ((c0 ++ sp1 ++ location sp2 ln' col') ++ rest)
      with ((c0 ++ sp1) ++ location sp2 ln' col' ++ rest) in E
      by (rewrite <- !app_assoc; reflexivity).
    apply location_unique in E as (-> & -> & -> & ->); auto.
    exists c0, sp1; auto 10.
  - exfalso. simpl in E. subst rest.
    pose proof (location_length sp ln col nl) as Hlen.
    apply at_eol_cases in Heol as [Heol|Heol];
      apply (f_equal (@List.length ascii)) in Heol;
      rewrite length_app in Heol; simpl in Heol; lia.
Qed.

Lemma tail_rejects {R} (k : cont R) m1 m2 sp1 sp2 ln col nl n c :
  m2 <> [] -> ends_with space_or_colon (m1 ++ m2) = false ->
  forallb is_space sp1 = true -> forallb is_space sp2 = true ->
  number ln -> number col -> at_eol nl = true ->
  run tail_re k n (m2 ++ sp1 ++ location sp2 ln col ++ nl) c = None.
Proof.
  intros Hne Hend Hsp1 Hsp2 Hln Hcol Hnl.
  destruct (run tail_re k n _ c) eqn:H; [exfalso|reflexivity].
  apply run_sound in H as (w & rest & c' & E & Hm & _).
  rewrite app_assoc in E.
  destruct (tail_shape _ _ _ _ _ _ _ _ _ _ Hsp2 Hln Hcol Hnl E Hm)
    as (c0 & sp1' & Ea & Hc0 & Hsp1' & _).
  destruct (exists_last Hne) as (m2' & x & ->).
  rewrite app_assoc, ends_with_snoc in Hend.
  apply orb_false_iff in Hend as [Hx1 Hx2].
  assert (Hin : In x (c0 ++ sp1')).
  { rewrite <- Ea. apply in_or_app; left. apply in_or_app; right.
    left; reflexivity. }
  apply in_app_or in Hin as [Hin|Hin].
  - destruct Hc0 as [-> | ->]; simpl in Hin; [tauto|].
    destruct Hin as [<-|[]]. discriminate.
  - rewrite forallb_forall in Hsp1'. rewrite (Hsp1' x Hin) in Hx1.
    discriminate.
Qed.

Lemma forallb_any (s : str) : forallb any_char s = true.
Proof. induction s; simpl; auto. Qed.

(** The location step on a message that ends with a location. *)
Lemma locate_location m sp1 sp2 ln col nl :
  ends_with space_or_colon m = false ->
  forallb is_space sp1 = true -> forallb is_space sp2 = true ->
  number ln -> number col -> at_eol nl = true ->
  locate (m ++ sp1 ++ location sp2 ln col ++ nl) = located ln col m.
Proof.
  intros Hend Hsp1 Hsp2 Hln Hcol Hnl.
  unfold locate, re_match. rewrite message_re_eq. cbn [run Nat.eqb].
  set (k0 := fun (n : nat) (l : str) (c : caps) =>
               Some {| m_end := n; m_rest := l; m_caps := c |}).
  set (s := m ++ sp1 ++ location sp2 ln col ++ nl).
  set (K := fun (n' : nat) (l' : str) (c' : caps) =>
              run tail_re k0 n' l' (("message"%string, firstn (n' - 0) s) :: c')).
  assert (Hacc : K (0 + List.length m) (sp1 ++ location sp2 ln col ++ nl) []
                 <> None).
  { unfold K. apply (tail_accepts k0 [] sp1 sp2 ln col nl); auto.
    intros; discriminate. }
  destruct (K (0 + List.length m) (sp1 ++ location sp2 ln col ++ nl) [])
    as [v|] eqn:Hv; [clear Hacc|congruence].
  change (rep_lazy any_char K 0 s [])
    with (rep_lazy any_char K 0 (m ++ sp1 ++ location sp2 ln col ++ nl) []).
  rewrite (rep_lazy_first any_char K m _ 0 [] v (forallb_any m)); auto.
  - unfold K in Hv. apply run_sound in Hv as (w & rest & c' & E & Hm & Hk).
    destruct (tail_shape _ _ _ _ _ _ _ _ _ _ Hsp2 Hln Hcol Hnl E Hm)
      as (c0 & sp1' & _ & _ & _ & -> & ->).
    unfold k0 in Hk; injection Hk as <-.
    unfold int_group, group; cbn.
    rewrite Nat.sub_0_r. unfold s. rewrite firstn_app, Nat.sub_diag, firstn_all.
    simpl; rewrite app_nil_r.
    unfold located, to_int.
    destruct ln as [|x ln]; [destruct Hln; congruence|].
    destruct col as [|y col]; [destruct Hcol; congruence|].
    destruct (int_ (x :: ln)); [|reflexivity].
    destruct (int_ (y :: col)); reflexivity.
  - intros w1 w2 -> Hne. unfold K.
    apply (tail_rejects k0 w1 w2 sp1 sp2 ln col nl); auto.
Qed.

(** The pattern matches every message. *)
Lemma re_match_total (s : str) : exists v, re_match message_re s = Some v.
Proof.
  unfold re_match. rewrite message_re_eq. cbn [run Nat.eqb].
  apply rep_lazy_total. unfold tail_re. cbn [run at_eol].
  match goal with |- exists v, match ?x with _ => _ end = Some v =>
    destruct x; eauto end.
Qed.

(** What a match of the pattern says about the message. *)
Lemma re_match_shape (s : str) (v : match_) :
  re_match message_re s = Some v ->
  at_eol (m_rest v) = true
  /\ exists wm,
       (m_caps v = [("message"%string, wm)] /\ s = wm ++ m_rest v)
       \/ (exists w c0 sp1 sp2 ln col,
             m_caps v = [("2"%string, w); ("column"%string, col);
                         ("line"%string, ln); ("message"%string, wm)]
             /\ s = (wm ++ c0 ++ sp1) ++ location sp2 ln col ++ m_rest v
             /\ forallb is_space sp2 = true /\ number ln /\ number col).
Proof.
  unfold re_match. rewrite message_re_eq. intros H.
  apply run_sound in H as (w & rest & c' & -> & Hm & Hk).
  injection Hk as <-. cbn [m_rest m_caps].
  cbn [matches] in Hm.
  destruct Hm as (? & ? & ? & -> & (_ & -> & ->)
                  & wm & wt & ? & -> & (? & (_ & ->) & ->) & Ht).
  unfold tail_re in Ht; cbn [matches] in Ht.
  destruct Ht as (w1 & ? & ? & -> & [(c2 & Hs & ->)|[-> ->]]
                  & (Heol & -> & ->)).
  - split; [assumption|]. exists wm. right.
    apply suffix_shape in Hs
      as (c0 & sp1 & sp2 & ln & col & -> & _ & _ & Hsp2 & Hln & Hcol & ->).
    exists (c0 ++ sp1 ++ location sp2 ln col), c0, sp1, sp2, ln, col.
    repeat split; try assumption; try apply Hln; try apply Hcol.
    rewrite !app_nil_r. cbn [app]. rewrite <- !app_assoc. reflexivity.
  - split; [assumption|]. exists wm. left. split; [reflexivity|].
    rewrite !app_nil_r. reflexivity.
Qed.



Lemma ends_with_newline_eol (s rest : str) :
  ends_with is_newline (s ++ rest) = false -> at_eol rest = true ->
  rest = [].
Proof.
  intros Hs He. apply at_eol_cases in He as [->| ->]; [reflexivity|].
  rewrite ends_with_snoc in Hs. discriminate.
Qed.

(** The location step on a message that has no location and no final
    newline. *)
Lemma locate_plain (s : str) :
  ~ has_location s -> ends_with is_newline s = false ->
  locate s = Ret (1%Z, 1%Z, s).
Proof.
  intros Hno Hnl.
  destruct (re_match_total s) as [v Hv].
  destruct (re_match_shape s v Hv) as (Heol & wm & [[Hc E]|H]).
  - rewrite E in Hnl. rewrite (ends_with_newline_eol _ _ Hnl Heol) in E.
    rewrite app_nil_r in E; subst wm.
    unfold locate, int_group, group. rewrite Hv, Hc. reflexivity.
  - exfalso. destruct H as (w & c0 & sp1 & sp2 & ln & col & _ & E & Hsp2
                            & Hln & Hcol).
    rewrite E, app_assoc in Hnl.
    rewrite (ends_with_newline_eol _ _ Hnl Heol), app_nil_r in E.
    apply Hno. exists (wm ++ c0 ++ sp1), sp2, ln, col. auto.
Qed.

(** *** The colon of the second group *)

Lemma tail_rejects_colon {R} (k : cont R) w2 sp1 sp2 ln col nl n c :
  w2 <> [] ->
  forallb is_space sp2 = true -> number ln -> number col ->
  at_eol nl = true ->
  run tail_re k n (w2 ++ txt ":" ++ sp1 ++ location sp2 ln col ++ nl) c
  = None.
Proof.
  intros Hne Hsp2 Hln Hcol Hnl.
  destruct (run tail_re k n _ c) eqn:H; [exfalso|reflexivity].
  apply run_sound in H as (w & rest & c' & E & Hm & _).
  replace (w2 ++ txt ":" ++ sp1 ++ location sp2 ln col ++ nl)
    with ((w2 ++ txt ":" ++ sp1) ++ location sp2 ln col ++ nl) in E
    by (rewrite <- !app_assoc; reflexivity).
  destruct (tail_shape _ _ _ _ _ _ _ _ _ _ Hsp2 Hln Hcol Hnl E Hm)
    as (c0 & sp1' & Ea & Hc0 & Hsp1' & _).
  destruct w2 as [|x w2]; [congruence|].
  assert (Hin : In ":"%char sp1').
  { destruct Hc0 as [-> | ->]; simpl in Ea.
    - rewrite <- Ea. right. apply in_or_app; right; left; reflexivity.
    - injection Ea as _ Ea. rewrite <- Ea.
      apply in_or_app; right; left; reflexivity. }
  rewrite forallb_forall in Hsp1'. specialize (Hsp1' _ Hin). discriminate.
Qed.

(** The location step on a message with a colon before the location:
    the second group takes the colon. *)
Lemma locate_colon m sp1 sp2 ln col nl :
  forallb is_space sp1 = true -> forallb is_space sp2 = true ->
  number ln -> number col -> at_eol nl = true ->
  locate (m ++ txt ":" ++ sp1 ++ location sp2 ln col ++ nl)
  = located ln col m.
Proof.
  intros Hsp1 Hsp2 Hln Hcol Hnl.
  unfold locate, re_match. rewrite message_re_eq. cbn [run Nat.eqb].
  set (k0 := fun (n : nat) (l : str) (c : caps) =>
               Some {| m_end := n; m_rest := l; m_caps := c |}).
  set (s := m ++ txt ":" ++ sp1 ++ location sp2 ln col ++ nl).
  set (K := fun (n' : nat) (l' : str) (c' : caps) =>
              run tail_re k0 n' l' (("message"%string, firstn (n' - 0) s) :: c')).
  assert (Hacc : K (0 + List.length m)
                   (txt ":" ++ sp1 ++ location sp2 ln col ++ nl) []
                 <> None).
  { unfold K. apply (tail_accepts k0 (txt ":") sp1 sp2 ln col nl); auto.
    intros; discriminate. }
  destruct (K (0 + List.length m)
              (txt ":" ++ sp1 ++ location sp2 ln col ++ nl) [])
    as [v|] eqn:Hv; [clear Hacc|congruence].
  change (rep_lazy any_char K 0 s [])
    with (rep_lazy any_char K 0
            (m ++ txt ":" ++ sp1 ++ location sp2 ln col ++ nl) []).
  rewrite (rep_lazy_first any_char K m _ 0 [] v (forallb_any m)); auto.
  - unfold K in Hv. apply run_sound in Hv as (w & rest & c' & E & Hm & Hk).
    replace (txt ":" ++ sp1 ++ location sp2 ln col ++ nl)
      with ((txt ":" ++ sp1) ++ location sp2 ln col ++ nl) in E
      by (rewrite <- !app_assoc; reflexivity).
    destruct (tail_shape _ _ _ _ _ _ _ _ _ _ Hsp2 Hln Hcol Hnl E Hm)
      as (c0 & sp1' & _ & _ & _ & -> & ->).
    unfold k0 in Hk; injection Hk as <-.
    unfold group, int_group; cbn.
    rewrite Nat.sub_0_r. unfold s. rewrite firstn_app, Nat.sub_diag, firstn_all.
    simpl; rewrite app_nil_r.
    unfold located, to_int.
    destruct ln as [|x ln]; [destruct Hln; congruence|].
    destruct col as [|y col]; [destruct Hcol; congruence|].
    destruct (int_ (x :: ln)); [|reflexivity].
    destruct (int_ (y :: col)); reflexivity.
  - intros w1 w2 -> Hne. unfold K.
    apply (tail_rejects_colon k0 w2 sp1 sp2 ln col nl); auto.
Qed.

Lemma drop_colon_cases (s : str) :
  (ends_with is_colon s = false /\ drop_colon s = s)
  \/ s = drop_colon s ++ txt ":".
Proof.
  unfold drop_colon. destruct (ends_with is_colon s) eqn:H; [right|left; auto].
  destruct s as [|x s _] using rev_ind; [discriminate|].
  rewrite ends_with_snoc in H. apply Ascii.eqb_eq in H. subst x.
  rewrite removelast_last. reflexivity.
Qed.

(** The location step on every message that ends with a location, or
    with a location and a newline. *)
Lemma locate_located pre sp ln col nl :
  forallb is_space sp = true -> number ln -> number col ->
  at_eol nl = true ->
  locate (pre ++ location sp ln col ++ nl)
  = located ln col (drop_colon (rstrip pre)).
Proof.
  intros Hsp Hln Hcol Hnl.
  destruct (rstrip_split pre) as (sp1 & E & Hsp1 & Hend).
  destruct (drop_colon_cases (rstrip pre)) as [[Hc ->]|Hc].
  - replace (pre ++ location sp ln col ++ nl)
      with (rstrip pre ++ sp1 ++ location sp ln col ++ nl)
      by (rewrite app_assoc, <- E; reflexivity).
    apply locate_location; auto.
    unfold ends_with, space_or_colon in *.
    destruct (rev (rstrip pre)); [reflexivity|].
    rewrite Hend, Hc. reflexivity.
  - replace (pre ++ location sp ln col ++ nl)
      with (drop_colon (rstrip pre) ++ txt ":" ++ sp1
            ++ location sp ln col ++ nl).
    + apply locate_colon; auto.
    + rewrite (app_assoc (drop_colon (rstrip pre)) (txt ":")), <- Hc.
      rewrite app_assoc, <- E. reflexivity.
Qed.

Lemma drop_colon_length (pre : str) :
  List.length (drop_colon (rstrip pre)) <= List.length pre.
Proof.
  destruct (rstrip_split pre) as (sp1 & E & _ & _).
  apply (f_equal (@List.length ascii)) in E. rewrite length_app in E.
  destruct (drop_colon_cases (rstrip pre)) as [[_ ->]|Hc]; [lia|].
  apply (f_equal (@List.length ascii)) in Hc. rewrite length_app in Hc. lia.
Qed.

(** ** The normalization *)

Lemma content_re_eq :
  content_re
  = (Bol >> Lit content_open >> plus any_char >> Lit did_not)%re.
Proof. reflexivity. Qed.

(** [^] refuses every position but the first. *)
Lemma content_re_later {R} (k : cont R) n l c :
  0 < n -> run content_re k n l c = None.
Proof.
  intros Hn. unfold content_re. cbn [run].
  destruct (Nat.eqb_spec n 0); [lia|reflexivity].
Qed.

Lemma sub_from_later fuel repl : forall n l,
  0 < n -> sub_from fuel content_re repl n l = l.
Proof.
  induction fuel as [|fuel IH]; intros n l Hn; [reflexivity|].
  cbn [sub_from]. rewrite content_re_later by assumption.
  destruct l as [|x t]; [reflexivity|]. rewrite IH by lia. reflexivity.
Qed.

Lemma content_shape n c w rest c' :
  matches content_re n c w rest c' ->
  n = 0 /\ exists a, a <> [] /\ w = content_open ++ a ++ did_not.
Proof.
  rewrite content_re_eq. cbn [matches].
  intros (? & ? & ? & -> & (-> & -> & ->) & ? & ? & ? & -> & (-> & ->)
          & a & ? & ? & -> & Ha & (-> & ->)).
  apply plus_shape in Ha as [[Ha _] _].
  split; [reflexivity|]. exists a. split; [assumption|reflexivity].
Qed.

(** [re.sub] with this pattern: one replacement at the start, or none. *)
Lemma normalize_eq (s : str) :
  normalize s
  = match run content_re (fun n' l' _ => Some (n', l')) 0 s [] with
    | Some (_, l') => replacement ++ l'
    | None => s
    end.
Proof.
  unfold normalize, re_sub. cbn [sub_from].
  destruct (run content_re _ 0 s []) as [[n' l']|] eqn:H.
  - apply run_sound in H as (w & rest & c' & E & Hm & Hk).
    injection Hk as <- <-.
    apply content_shape in Hm as (_ & a & Ha & ->).
    replace (0 + List.length (content_open ++ a ++ did_not) =? 0)
      with false.
    + rewrite sub_from_later; [reflexivity|].
      rewrite length_app; simpl; lia.
    + symmetry; apply Nat.eqb_neq. rewrite length_app; simpl; lia.
  - destruct s as [|x t]; [reflexivity|].
    rewrite sub_from_later by lia. reflexivity.
Qed.

Lemma occurs_app (pat u v : str) :
  occurs pat (u ++ v) = false -> strip_prefix pat v = None.
Proof.
  induction u as [|x u IH]; intros H.
  - simpl in H. destruct v; simpl in H; apply orb_false_iff in H as [H _];
      unfold startswith in H;
      match type of H with
      | match ?x with _ => _ end = _ => destruct x; [discriminate|reflexivity]
      end.
  - simpl in H. apply orb_false_iff in H as [_ H]. auto.
Qed.

(** After the [' did not] that the pattern reads, no later one starts:
    the text [' did not] does not overlap itself. *)
Lemma did_not_last (r w1 w2 : str) :
  occurs did_not r = false -> did_not ++ r = w1 ++ w2 -> w1 <> [] ->
  strip_prefix did_not w2 = None.
Proof.
  intros Hocc E Hne. unfold did_not in E. cbn [txt list_ascii_of_string app] in E.
  destruct w1 as [|? w1]; [congruence|]. clear Hne.
  do 8 (injection E as <- E;
        destruct w1 as [|? w1]; [simpl in E; subst w2; reflexivity|]).
  injection E as <- E. subst r. apply (occurs_app _ w1). exact Hocc.
Qed.

(** A message that begins with [Jenkinsfile content '<a>' did not], [a]
    not empty, up to the last [' did not]. *)
Lemma normalize_content (a r : str) :
  a <> [] -> occurs did_not r = false ->
  normalize (content_open ++ a ++ did_not ++ r) = replacement ++ r.
Proof.
  intros Ha Hocc. rewrite normalize_eq, content_re_eq. cbn [run Nat.eqb].
  rewrite strip_prefix_app.
  destruct a as [|x a]; [congruence|]. unfold plus. cbn [run app any_char].
  rewrite (rep_greedy_last any_char _ a (did_not ++ r) _ []
             (S (0 + List.length content_open)
              + List.length a + List.length did_not, r)).
  - reflexivity.
  - apply forallb_any.
  - intros w1 w2 E Hne. cbn [run]. rewrite (did_not_last r w1 w2); auto.
  - cbn [run]. rewrite strip_prefix_app. reflexivity.
Qed.

(** Any other message is left as it is. *)
Lemma normalize_other (s : str) :
  (forall a r, a <> [] -> s <> content_open ++ a ++ did_not ++ r) ->
  normalize s = s.
Proof.
  intros Hs. rewrite normalize_eq.
  destruct (run content_re _ 0 s []) as [[n' l']|] eqn:H; [|reflexivity].
  exfalso. apply run_sound in H as (w & rest & c' & E & Hm & _).
  apply content_shape in Hm as (_ & a & Ha & ->).
  apply (Hs a rest Ha). rewrite E, <- !app_assoc. reflexivity.
Qed.


(** ** Claims on [_parse_error] *)




(** A message without a location and without a final newline. *)
Lemma parse_error_plain (s : str) :
  ~ has_location s -> ends_with is_newline s = false ->
  _parse_error s = Ret (1%Z, 1%Z, normalize s).
Proof.
  intros Hno Hnl. unfold _parse_error. rewrite locate_plain; auto.
Qed.




(** C3 (as amended).  The substitution rewrites a message that begins
    with [Jenkinsfile content '<a>' did not], where [a] is not empty and
    [' did not] is the last one of the message, to [Jenkinsfile did not]
    followed by the remainder; [_parse_error] returns that text when the
    message carries no location and no final newline; the message of the
    specification normalizes as it says; a message without such a
    beginning is left unchanged by the substitution. *)
Theorem normalize_message :
  (forall a r,
     a <> [] -> occurs did_not r = false ->
     normalize (content_open ++ a ++ did_not ++ r) = replacement ++ r)
  /\ (forall a r,
        a <> [] -> occurs did_not r = false ->
        ~ has_location (content_open ++ a ++ did_not ++ r) ->
        ends_with is_newline (content_open ++ a ++ did_not ++ r) = false ->
        _parse_error (content_open ++ a ++ did_not ++ r)
        = Ret (1%Z, 1%Z, replacement ++ r))
  /\ _parse_error
       (txt "Jenkinsfile content 'node {...}' did not contain the 'pipeline' step")
     = Ret (1%Z, 1%Z, txt "Jenkinsfile did not contain the 'pipeline' step")
  /\ (forall s,
        (forall a r, a <> [] -> s <> content_open ++ a ++ did_not ++ r) ->
        normalize s = s).
Proof.
  split; [|split; [|split]].
  - exact normalize_content.
  - intros a r Ha Hocc Hno Hnl.
    rewrite (parse_error_plain _ Hno Hnl).
    rewrite normalize_content by assumption. reflexivity.
  - reflexivity.
  - exact normalize_other.
Qed.

Lemma normalize_message_witness :
  (txt "node {}" <> []
   /\ occurs did_not (txt " contain the 'pipeline' step") = false
   /\ normalize (content_open ++ txt "node {}" ++ did_not
                 ++ txt " contain the 'pipeline' step")
      = replacement ++ txt " contain the 'pipeline' step")
  /\ ((forall a r, a <> [] ->
         txt "Expected a stage" <> content_open ++ a ++ did_not ++ r)
      /\ normalize (txt "Expected a stage") = txt "Expected a stage").
Proof.
  assert (Hne : txt "node {}" <> []) by discriminate.
  assert (Hother : forall a r, a <> [] ->
            txt "Expected a stage" <> content_open ++ a ++ did_not ++ r)
    by (intros a r _ E; discriminate E).
  split.
  - split; [exact Hne|]. split; [reflexivity|].
    exact (proj1 normalize_message (txt "node {}")
             (txt " contain the 'pipeline' step") Hne eq_refl).
  - split; [exact Hother|].
    exact (proj2 (proj2 (proj2 normalize_message)) (txt "Expected a stage")
             Hother).
Defined.

(** C3 as stated fails: with nothing between the quotes the message
    begins with [Jenkinsfile content '' did not], and it is left as it
    is. *)
Lemma normalize_empty_content :
  let m := txt "Jenkinsfile content '' did not contain the 'pipeline' step" in
  let r := txt " contain the 'pipeline' step" in
  m = content_open ++ [] ++ did_not ++ r
  /\ normalize m = m
  /\ _parse_error m = Ret (1%Z, 1%Z, m)
  /\ m <> replacement ++ r.
Proof. repeat split. discriminate. Qed.

(** ** The session: [_query], [_get_crumb], [__init__] *)

Lemma raise_for_status_error (r : response) :
  error_status (status_code r) ->
  exists m, raise_for_status r = Some (RequestError "HTTPError" m).
Proof.
  unfold error_status, raise_for_status. intros H.
  destruct ((400 <=? status_code r) && (status_code r <? 500))%Z eqn:H4;
    [eauto|].
  destruct ((500 <=? status_code r) && (status_code r <? 600))%Z eqn:H5;
    [eauto|].
  apply andb_false_iff in H4, H5. exfalso.
  destruct H4 as [H4|H4], H5 as [H5|H5];
    try apply Z.leb_gt in H4; try apply Z.leb_gt in H5;
    try apply Z.ltb_ge in H4; try apply Z.ltb_ge in H5; lia.
Qed.

Lemma raise_for_status_other (r : response) :
  ~ error_status (status_code r) -> raise_for_status r = None.
Proof.
  unfold error_status, raise_for_status. intros H.
  destruct ((400 <=? status_code r) && (status_code r <? 500))%Z eqn:H4.
  { apply andb_true_iff in H4 as [H1 H2].
    apply Z.leb_le in H1. apply Z.ltb_lt in H2. lia. }
  destruct ((500 <=? status_code r) && (status_code r <? 600))%Z eqn:H5.
  { apply andb_true_iff in H5 as [H1 H2].
    apply Z.leb_le in H1. apply Z.ltb_lt in H2. lia. }
  reflexivity.
Qed.

Lemma raise_for_status_kind (r : response) (e : exn) :
  raise_for_status r = Some e ->
  error_status (status_code r)
  /\ exists m, e = RequestError "HTTPError" m.
Proof.
  unfold error_status, raise_for_status. intros H.
  destruct ((400 <=? status_code r) && (status_code r <? 500))%Z eqn:H4.
  { apply andb_true_iff in H4 as [H1 H2].
    apply Z.leb_le in H1. apply Z.ltb_lt in H2.
    injection H as <-. split; [lia|eauto]. }
  destruct ((500 <=? status_code r) && (status_code r <? 600))%Z eqn:H5;
    [|discriminate].
  apply andb_true_iff in H5 as [H1 H2].
  apply Z.leb_le in H1. apply Z.ltb_lt in H2.
  injection H as <-. split; [lia|eauto].
Qed.

(** What [_query] returns, case by case. *)
Lemma query_outcome (E : env) (self : Jenkins) method path data headers w :
  fst (_query E self method path data headers w)
  = match server E (query_request self method path data headers) with
    | Failed kind m => Raise (JenkinsError (RequestException kind m))
    | Answered r =>
        match raise_for_status r with
        | Some e => Raise (wrap_request_exception e)
        | None => Ret r
        end
    end.
Proof.
  unfold _query, try_RequestException, session_request, bind, note_sent,
    raise, ret.
  fold (query_request self method path data headers).
  destruct (server E _) as [kind m|r]; [reflexivity|].
  destruct (raise_for_status r) as [e|] eqn:He; [|reflexivity].
  apply raise_for_status_kind in He as (_ & m & ->). reflexivity.
Qed.

(** [_query] records the request and changes nothing else. *)
Lemma query_world (E : env) (self : Jenkins) method path data headers w :
  snd (_query E self method path data headers w)
  = snd (note_sent (query_request self method path data headers) w).
Proof.
  unfold _query, try_RequestException, session_request, bind, note_sent,
    raise, ret.
  fold (query_request self method path data headers).
  destruct (server E _) as [kind m|r]; [reflexivity|].
  destruct (raise_for_status r) as [e|] eqn:He; [|reflexivity].
  apply raise_for_status_kind in He as (_ & m & ->). reflexivity.
Qed.

(** C6 (as amended).  For every request made through [_query] (the crumb
    GET and the validation POST are two of them): a failure of the
    transport is raised as a [JenkinsError]; a response with a 4xx or 5xx
    status is raised as a [JenkinsError] too, of the same kind; a response
    with any other status is returned; so a caller never sees a response
    with a 4xx or 5xx status. *)
Theorem query_failure_classification
    (E : env) (self : Jenkins) (method path : str)
    (data headers : option (list (str * str))) (w : world) :
  let rq := query_request self method path data headers in
  let result := fst (_query E self method path data headers w) in
  (forall kind m,
     server E rq = Failed kind m ->
     result = Raise (JenkinsError (RequestException kind m)))
  /\ (forall r,
        server E rq = Answered r -> error_status (status_code r) ->
        exists m,
          result = Raise (JenkinsError (RequestException "HTTPError" m)))
  /\ (forall r,
        server E rq = Answered r -> ~ error_status (status_code r) ->
        result = Ret r)
  /\ (forall r, result = Ret r -> ~ error_status (status_code r)).
Proof.
  cbv zeta. rewrite query_outcome. repeat split.
  - intros kind m ->. reflexivity.
  - intros r -> Hs.
    destruct (raise_for_status_error r Hs) as [m ->]. exists m; reflexivity.
  - intros r -> Hs. rewrite (raise_for_status_other r Hs). reflexivity.
  - intros r H Hs. destruct (server E _) as [kind m|r']; [discriminate|].
    destruct (raise_for_status r') as [e|] eqn:Hr.
    + destruct (raise_for_status_kind _ _ Hr) as (_ & m & ->).
      discriminate H.
    + injection H as ->.
      destruct (raise_for_status_error r Hs) as [m Hm]. congruence.
Qed.

Lemma query_failure_classification_witness :
  (server forbidden_env (crumb_request example_self)
   = Answered {| status_code := 403; text := []; body_json := None |}
   /\ error_status 403
   /\ exists m,
        fst (_query forbidden_env example_self (txt "get") _CRUMB_PATH
               None None world0)
        = Raise (JenkinsError (RequestException "HTTPError" m)))
  /\ (server not_modified_env (crumb_request example_self)
      = Answered {| status_code := 304; text := []; body_json := None |}
      /\ ~ error_status 304
      /\ fst (_query not_modified_env example_self (txt "get") _CRUMB_PATH
                None None world0)
         = Ret {| status_code := 304; text := []; body_json := None |}).
Proof.
  assert (H403 : error_status 403) by (unfold error_status; lia).
  assert (H304 : ~ error_status 304) by (unfold error_status; lia).
  split.
  - split; [reflexivity|]. split; [exact H403|].
    exact (proj1 (proj2 (query_failure_classification forbidden_env
             example_self (txt "get") _CRUMB_PATH None None world0))
             _ eq_refl H403).
  - split; [reflexivity|]. split; [exact H304|].
    exact (proj1 (proj2 (proj2 (query_failure_classification
             not_modified_env example_self (txt "get") _CRUMB_PATH None None
             world0))) _ eq_refl H304).
Defined.

(** C6 as stated fails: status 304 is not a 2xx status, and [_query]
    returns the response. *)
Lemma query_returns_not_modified :
  exists r,
    fst (_query not_modified_env example_self (txt "get") _CRUMB_PATH
           None None world0) = Ret r
    /\ status_code r = 304%Z /\ ~ success_status (status_code r).
Proof.
  eexists. split; [reflexivity|]. split; [reflexivity|].
  unfold success_status; simpl; lia.
Qed.

(** *** The crumb *)

Lemma split_no_sep (sep : ascii) (s : str) :
  forallb (fun c => negb (Ascii.eqb c sep)) s = true -> split sep s = [s].
Proof.
  induction s as [|x s IH]; simpl; [reflexivity|].
  intros H. apply andb_true_iff in H as [Hx Hs].
  destruct (Ascii.eqb x sep); [discriminate|]. rewrite (IH Hs). reflexivity.
Qed.

Lemma split_first (sep : ascii) (a b : str) :
  forallb (fun c => negb (Ascii.eqb c sep)) a = true ->
  split sep (a ++ sep :: b) = a :: split sep b.
Proof.
  induction a as [|x a IH]; simpl.
  - rewrite Ascii.eqb_refl. reflexivity.
  - intros H. apply andb_true_iff in H as [Hx Ha].
    destruct (Ascii.eqb x sep); [discriminate|]. rewrite (IH Ha). reflexivity.
Qed.

(** What [_get_crumb] does with the text of an accepted response. *)
Lemma get_crumb_outcome (E : env) (self : Jenkins) (r : response) w :
  server E (crumb_request self) = Answered r ->
  ~ error_status (status_code r) ->
  fst (_get_crumb E self w)
  = if startswith (lower (text r)) (txt "jenkins-crumb:") then
      match split ":" (text r) with
      | c0 :: c1 :: _ => Ret [(strip c0, strip c1)]
      | _ => Raise IndexError
      end
    else Raise (crumb_error (_url self)).
Proof.
  intros Hs Hok. unfold _get_crumb, bind.
  pose proof (query_outcome E self (txt "get") _CRUMB_PATH None None w) as Hq.
  pose proof (query_world E self (txt "get") _CRUMB_PATH None None w) as Hw.
  fold (crumb_request self) in Hq. rewrite Hs in Hq.
  rewrite (raise_for_status_other r Hok) in Hq.
  destruct (_query E self (txt "get") _CRUMB_PATH None None w) as [o w'].
  simpl in Hq; subst o.
  destruct (startswith (lower (text r)) (txt "jenkins-crumb:"));
    [|reflexivity].
  simpl. destruct (split ":" (text r)) as [|c0 [|c1 l]]; reflexivity.
Qed.

(** A text without the prefix: a [JenkinsError] that names the server. *)
Lemma get_crumb_refused (E : env) (self : Jenkins) (r : response) w :
  server E (crumb_request self) = Answered r ->
  ~ error_status (status_code r) ->
  startswith (lower (text r)) (txt "jenkins-crumb:") = false ->
  fst (_get_crumb E self w)
  = Raise (JenkinsError
             (Msg (txt "Unable to retrieve crumb from " ++ _url self
                   ++ txt ". Crumb issuer is probably blocked."))).
Proof.
  intros Hs Hok Hp. rewrite (get_crumb_outcome E self r w Hs Hok), Hp.
  reflexivity.
Qed.

(** A text [name:value] with one colon: the two parts, stripped. *)
Lemma get_crumb_one_colon (E : env) (self : Jenkins) (r : response)
    (name value : str) w :
  server E (crumb_request self) = Answered r ->
  ~ error_status (status_code r) ->
  text r = name ++ ":"%char :: value ->
  startswith (lower (text r)) (txt "jenkins-crumb:") = true ->
  no_colon name -> no_colon value ->
  fst (_get_crumb E self w) = Ret [(strip name, strip value)].
Proof.
  intros Hs Hok Ht Hp Hn Hv.
  rewrite (get_crumb_outcome E self r w Hs Hok), Hp, Ht.
  rewrite (split_first ":" name value Hn), (split_no_sep ":" value Hv).
  reflexivity.
Qed.

(** A text [name:value:more]: what follows the second colon is lost. *)
Lemma get_crumb_two_colons (E : env) (self : Jenkins) (r : response)
    (name value more : str) w :
  server E (crumb_request self) = Answered r ->
  ~ error_status (status_code r) ->
  text r = name ++ ":"%char :: value ++ ":"%char :: more ->
  startswith (lower (text r)) (txt "jenkins-crumb:") = true ->
  no_colon name -> no_colon value ->
  fst (_get_crumb E self w) = Ret [(strip name, strip value)].
Proof.
  intros Hs Hok Ht Hp Hn Hv.
  rewrite (get_crumb_outcome E self r w Hs Hok), Hp, Ht.
  rewrite (split_first ":" name _ Hn), (split_first ":" value more Hv).
  reflexivity.
Qed.

(** C1, where the code departs from it.  The crumb endpoint answers
    [Jenkins-Crumb:ab:cd]: the text begins with the prefix, the substring
    after the first colon is [ab:cd], and the header value [_get_crumb]
    returns is [ab]. *)
Theorem get_crumb_value_with_colon :
  server colon_crumb_env (crumb_request example_self)
  = Answered (ok_response (txt "Jenkins-Crumb:ab:cd") None)
  /\ txt "Jenkins-Crumb:ab:cd" = txt "Jenkins-Crumb" ++ txt ":" ++ txt "ab:cd"
  /\ fst (_get_crumb colon_crumb_env example_self world0)
     = Ret [(txt "Jenkins-Crumb", txt "ab")].
Proof. repeat split. Qed.

(** ** [lint], step by step *)

Lemma add_stdout_nil (w : world) : add_stdout w [] = w.
Proof. destruct w; unfold add_stdout; simpl. rewrite app_nil_r. reflexivity. Qed.

Lemma add_stdout_app (w : world) (a b : list str) :
  add_stdout (add_stdout w a) b = add_stdout w (a ++ b).
Proof. unfold add_stdout; simpl. rewrite app_assoc. reflexivity. Qed.

Lemma print_all_run (lines : list str) : forall w,
  print_all lines w = (Ret tt, add_stdout w lines).
Proof.
  induction lines as [|l lines IH]; intros w; simpl.
  - unfold ret. rewrite add_stdout_nil. reflexivity.
  - unfold bind, print. rewrite IH.
    f_equal. apply (add_stdout_app w [l] lines).
Qed.

Lemma lint_result_run (path : str) (result : json) (w : world) :
  lint_result path result w
  = match collect_errors result with
    | Ret _errors =>
        (verdict result,
         add_stdout w
           (map (format_diagnostic path) (sorted diag_line _errors)))
    | Raise e => (Raise e, w)
    end.
Proof.
  unfold lint_result, bind, lift, print_diagnostics.
  destruct (collect_errors result) as [errs|e]; [|reflexivity].
  rewrite print_all_run. reflexivity.
Qed.

Lemma lint_run (E : env) (self : Jenkins) (path : str) (w : world) :
  lint E self path w
  = let w1 := snd (note_open path w) in
    match fs E path with
    | Unreadable m => (Raise (JenkinsError (OSError m)), w1)
    | Undecodable m => (Raise (JenkinsError (UnicodeDecodeError m)), w1)
    | Content content =>
        let w2 := snd (note_sent (validation_request self content) w1) in
        match server E (validation_request self content) with
        | Failed kind m =>
            (Raise (JenkinsError (RequestException kind m)), w2)
        | Answered r =>
            match raise_for_status r with
            | Some e => (Raise (wrap_request_exception e), w2)
            | None =>
                match body_json r with
                | Some result => lint_result path result w2
                | None =>
                    (Raise (RequestError "JSONDecodeError"
                              (txt "Expecting value")), w2)
                end
            end
        end
    end.
Proof.
  unfold lint, read_jenkinsfile, bind, note_open, raise, ret. cbv zeta.
  destruct (fs E path) as [m|m|content]; try reflexivity.
  unfold _query, try_RequestException, session_request, bind, note_sent,
    raise, ret.
  fold (validation_request self content).
  destruct (server E _) as [kind m|r]; [reflexivity|].
  destruct (raise_for_status r) as [e|] eqn:He.
  - apply raise_for_status_kind in He as (_ & m & ->). reflexivity.
  - unfold response_json, raise, ret.
    destruct (body_json r); reflexivity.
Qed.


(** What [lint] returns does not depend on the world it starts in. *)
Lemma lint_outcome_eq (E : env) (self : Jenkins) (path : str) (w : world) :
  fst (lint E self path w) = lint_outcome E self path.
Proof.
  unfold lint_outcome. rewrite !lint_run. cbv zeta.
  destruct (fs E path) as [m|m|content]; try reflexivity.
  destruct (server E _) as [kind m|r]; [reflexivity|].
  destruct (raise_for_status r); [reflexivity|].
  destruct (body_json r) as [result|]; [|reflexivity].
  rewrite !lint_result_run.
  destruct (collect_errors result); reflexivity.
Qed.

(** [lint] opens its file, and closes no session. *)
Lemma lint_world (E : env) (self : Jenkins) (path : str) (w : world) :
  opened (snd (lint E self path w)) = opened w ++ [path]
  /\ closes (snd (lint E self path w)) = closes w.
Proof.
  rewrite lint_run. cbv zeta.
  destruct (fs E path) as [m|m|content]; try (split; reflexivity).
  destruct (server E _) as [kind m|r]; [split; reflexivity|].
  destruct (raise_for_status r); [split; reflexivity|].
  destruct (body_json r) as [result|]; [|split; reflexivity].
  rewrite lint_result_run.
  destruct (collect_errors result); split; reflexivity.
Qed.

(** ** [sorted]: a stable sort *)

Section Sorting.
Context {A : Type} (key : A -> Z).

Lemma insert_by_perm (x : A) (l : list A) :
  Permutation (insert_by key x l) (x :: l).
Proof.
  induction l as [|y l IH]; simpl; [reflexivity|].
  destruct (key x <=? key y)%Z; [reflexivity|].
  rewrite IH. apply perm_swap.
Qed.

Lemma sorted_perm (l : list A) : Permutation (sorted key l) l.
Proof.
  induction l as [|x l IH]; simpl; [reflexivity|].
  rewrite insert_by_perm, IH. reflexivity.
Qed.

Lemma insert_by_sorted (x : A) (l : list A) :
  StronglySorted (key_le key) l -> StronglySorted (key_le key) (insert_by key x l).
Proof.
  induction 1 as [|y l Hl IH Hy]; simpl.
  - constructor; constructor.
  - destruct (key x <=? key y)%Z eqn:Hxy.
    + apply Z.leb_le in Hxy. constructor.
      * constructor; assumption.
      * constructor; [exact Hxy|].
        eapply Forall_impl; [|exact Hy].
        intros a Ha. unfold key_le in *. lia.
    + apply Z.leb_gt in Hxy. constructor; [exact IH|].
      eapply Permutation_Forall; [symmetry; apply insert_by_perm|].
      constructor; [unfold key_le; lia|exact Hy].
Qed.

Lemma sorted_sorted (l : list A) : StronglySorted (key_le key) (sorted key l).
Proof.
  induction l as [|x l IH]; simpl; [constructor|].
  apply insert_by_sorted, IH.
Qed.

(** Inserting [x] puts it before the elements of its own key. *)
Lemma insert_by_filter (k : Z) (x : A) (l : list A) :
  StronglySorted (key_le key) l ->
  filter (has_key key k) (insert_by key x l) = filter (has_key key k) (x :: l).
Proof.
  induction 1 as [|y l Hl IH Hy]; [reflexivity|].
  cbn [insert_by]. destruct (key x <=? key y)%Z eqn:Hxy; [reflexivity|].
  apply Z.leb_gt in Hxy. cbn [filter] in *. rewrite IH.
  unfold has_key.
  destruct (Z.eqb_spec (key x) k), (Z.eqb_spec (key y) k);
    try reflexivity.
  lia.
Qed.

(** Stability: among the diagnostics of one key the order is the
    original one. *)
Lemma sorted_stable (k : Z) (l : list A) :
  filter (has_key key k) (sorted key l) = filter (has_key key k) l.
Proof.
  induction l as [|x l IH]; [reflexivity|].
  cbn [sorted]. rewrite insert_by_filter by apply sorted_sorted.
  cbn [filter]. rewrite IH. reflexivity.
Qed.

Lemma filter_head_sorted (x : A) (l : list A) :
  StronglySorted (key_le key) (x :: l) ->
  forall k, (k < key x)%Z -> filter (has_key key k) (x :: l) = [].
Proof.
  intros Hs k Hk. inversion Hs as [|? ? _ Hall]; subst.
  cbn [filter]. unfold has_key at 1.
  destruct (Z.eqb_spec (key x) k); [lia|].
  induction l as [|y l IH]; [reflexivity|].
  inversion Hall as [|? ? Hy Hl]; subst. cbn [filter]. unfold has_key at 1.
  unfold key_le in Hy.
  destruct (Z.eqb_spec (key y) k); [lia|]. apply IH; [|assumption].
  constructor; [|assumption].
  inversion Hs as [|? ? Hs' _]; subst. inversion Hs'; assumption.
Qed.

(** A sorted list is determined by its sublists of equal keys: a stable
    sort has one result, whatever the algorithm. *)
Lemma stable_sort_unique (l1 : list A) : forall l2,
  StronglySorted (key_le key) l1 -> StronglySorted (key_le key) l2 ->
  (forall k, filter (has_key key k) l1 = filter (has_key key k) l2) ->
  l1 = l2.
Proof.
  induction l1 as [|x l1 IH]; intros l2 H1 H2 Hf.
  - destruct l2 as [|y l2]; [reflexivity|].
    specialize (Hf (key y)). cbn [filter] in Hf. unfold has_key at 1 in Hf.
    rewrite Z.eqb_refl in Hf. discriminate.
  - destruct l2 as [|y l2].
    { specialize (Hf (key x)). cbn [filter] in Hf. unfold has_key at 1 in Hf.
      rewrite Z.eqb_refl in Hf. discriminate. }
    assert (Hxy : key x = key y).
    { destruct (Z.lt_trichotomy (key x) (key y)) as [Hlt|[Heq|Hgt]];
        [|exact Heq|].
      - pose proof (Hf (key x)) as Hk.
        rewrite (filter_head_sorted y l2 H2 (key x) Hlt) in Hk.
        cbn [filter] in Hk. unfold has_key at 1 in Hk.
        rewrite Z.eqb_refl in Hk. discriminate.
      - pose proof (Hf (key y)) as Hk.
        rewrite (filter_head_sorted x l1 H1 (key y) Hgt) in Hk.
        cbn [filter] in Hk. unfold has_key at 1 in Hk.
        rewrite Z.eqb_refl in Hk. discriminate. }
    pose proof (Hf (key x)) as Hk. cbn [filter] in Hk.
    assert (Hx : has_key key (key x) x = true) by apply Z.eqb_refl.
    assert (Hy : has_key key (key x) y = true)
      by (unfold has_key; rewrite Hxy; apply Z.eqb_refl).
    rewrite Hx, Hy in Hk. injection Hk as <- Hk. f_equal.
    inversion H1; inversion H2; subst. apply IH; try assumption.
    intros k. specialize (Hf k). cbn [filter] in Hf.
    destruct (has_key key k x); [injection Hf; auto|exact Hf].
Qed.

End Sorting.

(** ** Claims on the diagnostics *)

(** C4.  [lint] prints the diagnostics sorted by line: the lines printed
    are the diagnostics in the order [sorted] gives, one [print] each, in
    the form [path:line:column: level: error]; that order is ascending in
    the line, a permutation of the list, and stable (the diagnostics of
    one line keep their order, whatever their columns); it is the only
    order with these properties.  On the response of the specification
    the diagnostic of line 3 is printed before the one of line 4. *)
Theorem lint_prints_sorted
    (path : str) (_errors : list diagnostic) (w : world) :
  let out := sorted diag_line _errors in
  stdout (snd (print_diagnostics path _errors w))
  = stdout w ++ map (format_diagnostic path) out
  /\ (forall result,
        collect_errors result = Ret _errors ->
        stdout (snd (lint_result path result w))
        = stdout w ++ map (format_diagnostic path) out)
  /\ (forall line column error level,
        format_diagnostic path (line, column, error, level)
        = path ++ txt ":" ++ str_of_int line ++ txt ":"
          ++ str_of_int column ++ txt ": " ++ level ++ txt ": " ++ error)
  /\ StronglySorted (key_le diag_line) out
  /\ Permutation out _errors
  /\ (forall k,
        filter (has_key diag_line k) out
        = filter (has_key diag_line k) _errors)
  /\ (forall out',
        StronglySorted (key_le diag_line) out' ->
        (forall k, filter (has_key diag_line k) out'
                   = filter (has_key diag_line k) _errors) ->
        out' = out)
  /\ (let run := lint (json_env stage_errors_json) example_self
                   (txt "Jenkinsfile-bad") world0 in
      stdout (snd run)
      = [txt "Jenkinsfile-bad:3:3: error: No stages specified";
         txt "Jenkinsfile-bad:4:5: error: Expected a stage"]
      /\ fst run = Ret false).
Proof.
  cbv zeta. repeat split.
  - unfold print_diagnostics. rewrite print_all_run. reflexivity.
  - intros result H. rewrite lint_result_run, H. reflexivity.
  - apply sorted_sorted.
  - apply sorted_perm.
  - intros k. apply sorted_stable.
  - intros out' Hs Hf. apply (stable_sort_unique diag_line); auto.
    + apply sorted_sorted.
    + intros k. rewrite Hf, sorted_stable. reflexivity.
Qed.

Lemma lint_prints_sorted_witness :
  let errs := [(4%Z, 5%Z, txt "Expected a stage", txt "error");
               (3%Z, 3%Z, txt "No stages specified", txt "error")] in
  collect_errors stage_errors_json = Ret errs
  /\ stdout (snd (lint_result (txt "Jenkinsfile-bad") stage_errors_json
                    world0))
     = stdout world0
       ++ map (format_diagnostic (txt "Jenkinsfile-bad"))
            (sorted diag_line errs).
Proof.
  split; [reflexivity|].
  exact (proj1 (proj2 (lint_prints_sorted (txt "Jenkinsfile-bad")
           [(4%Z, 5%Z, txt "Expected a stage", txt "error");
            (3%Z, 3%Z, txt "No stages specified", txt "error")] world0))
           stage_errors_json eq_refl).
Defined.

(** ** The shape of the response *)

Lemma for_each_ret {A B} (f : A -> outcome (list B)) (g : A -> list B)
    (l : list A) :
  (forall a, In a l -> f a = Ret (g a)) -> for_each f l = Ret (flat_map g l).
Proof.
  induction l as [|a l IH]; intros H; simpl; [reflexivity|].
  rewrite (H a (or_introl eq_refl)). simpl.
  rewrite IH by (intros; apply H; right; assumption). reflexivity.
Qed.








Lemma assoc_nonempty (k : str) (o : list (str * json)) (v : json) :
  assoc k o = Some v -> truthy (JObj o) = true.
Proof. destruct o; [discriminate|reflexivity]. Qed.








(** ** The verdict *)







(** ** The loop over the files and the [with] block *)

(** One turn of the loop. *)
Lemma lint_files_step (E : env) (jenkins : Jenkins) (path : str)
    (paths : list str) (status : bool) (w : world) :
  lint_files (lint E jenkins) (path :: paths) status w
  = match lint E jenkins path w with
    | (Ret b, w') => lint_files (lint E jenkins) paths (status && b) w'
    | (Raise e, w') =>
        if is_LinterError e
        then lint_files (lint E jenkins) paths (status && false)
               (snd (emit_log (exn_str e) w'))
        else (Raise e, w')
    end.
Proof.
  cbn [lint_files]. unfold bind at 1, try_LinterError, bind at 1.
  destruct (lint E jenkins path w) as [[b|e] w']; [reflexivity|].
  unfold ret. destruct (is_LinterError e); reflexivity.
Qed.

(** The loop closes no session. *)
Lemma lint_files_closes (E : env) (jenkins : Jenkins) (paths : list str) :
  forall status w,
    closes (snd (lint_files (lint E jenkins) paths status w)) = closes w.
Proof.
  induction paths as [|path paths IH]; intros status w; [reflexivity|].
  rewrite lint_files_step.
  pose proof (proj2 (lint_world E jenkins path w)) as Hc.
  destruct (lint E jenkins path w) as [[b|e] w']; simpl in Hc.
  - rewrite IH. exact Hc.
  - destruct (is_LinterError e); [|exact Hc]. rewrite IH. exact Hc.
Qed.

(** The loop when no file raises anything but a [LinterError]. *)
Lemma lint_files_run (E : env) (jenkins : Jenkins) (paths : list str) :
  (forall p e, In p paths -> lint_outcome E jenkins p = Raise e ->
               is_LinterError e = true) ->
  forall status w,
    fst (lint_files (lint E jenkins) paths status w)
    = Ret (status && forallb (lint_passes E jenkins) paths)
    /\ opened (snd (lint_files (lint E jenkins) paths status w))
       = opened w ++ paths.
Proof.
  induction paths as [|path paths IH]; intros Hl status w.
  - simpl. rewrite andb_true_r, app_nil_r. split; reflexivity.
  - rewrite lint_files_step.
    pose proof (lint_outcome_eq E jenkins path w) as Ho.
    pose proof (proj1 (lint_world E jenkins path w)) as Hop.
    assert (Hl' : forall p e, In p paths ->
              lint_outcome E jenkins p = Raise e -> is_LinterError e = true)
      by (intros p e Hin; apply Hl; right; exact Hin).
    specialize (IH Hl').
    cbn [forallb]. unfold lint_passes at 1.
    destruct (lint E jenkins path w) as [[b|e] w']; simpl in Ho, Hop;
      rewrite <- Ho.
    + destruct (IH (status && b) w') as [H1 H2]. rewrite H1, H2, Hop.
      rewrite <- app_assoc. split; [|reflexivity].
      destruct b; rewrite andb_assoc; reflexivity.
    + rewrite (Hl path e (or_introl eq_refl) (eq_sym Ho)).
      destruct (IH (status && false) (snd (emit_log (exn_str e) w')))
        as [H1 H2].
      rewrite H1, H2. simpl. rewrite Hop, <- app_assoc.
      rewrite andb_false_r. split; reflexivity.
Qed.

(** The loop when a file raises an exception that is not a
    [LinterError], the files before it raising nothing else than
    [LinterError]s. *)
Lemma lint_files_abort (E : env) (jenkins : Jenkins)
    (before after : list str) (p : str) (e : exn) :
  (forall q e', In q before -> lint_outcome E jenkins q = Raise e' ->
                is_LinterError e' = true) ->
  lint_outcome E jenkins p = Raise e -> is_LinterError e = false ->
  forall status w,
    fst (lint_files (lint E jenkins) (before ++ p :: after) status w)
    = Raise e
    /\ opened (snd (lint_files (lint E jenkins) (before ++ p :: after)
                      status w))
       = opened w ++ before ++ [p].
Proof.
  intros Hb Hp He.
  induction before as [|q before IH]; intros status w; cbn [app];
    rewrite lint_files_step.
  - pose proof (lint_outcome_eq E jenkins p w) as Ho.
    pose proof (proj1 (lint_world E jenkins p w)) as Hop.
    rewrite Hp in Ho.
    destruct (lint E jenkins p w) as [[b|e'] w']; simpl in Ho, Hop;
      [discriminate|].
    injection Ho as ->. rewrite He. split; [reflexivity|exact Hop].
  - pose proof (lint_outcome_eq E jenkins q w) as Ho.
    pose proof (proj1 (lint_world E jenkins q w)) as Hop.
    assert (IH' := IH (fun x e' Hin => Hb x e' (or_intror Hin))).
    destruct (lint E jenkins q w) as [[b|e'] w']; simpl in Ho, Hop.
    + destruct (IH' (status && b) w') as [H1 H2]. rewrite H1, H2, Hop.
      rewrite <- app_assoc. split; reflexivity.
    + rewrite (Hb q e' (or_introl eq_refl) (eq_sym Ho)).
      destruct (IH' (status && false) (snd (emit_log (exn_str e') w')))
        as [H1 H2].
      rewrite H1, H2. simpl. rewrite Hop, <- app_assoc.
      split; reflexivity.
Qed.

(** [with]: the block's outcome, then one more [close]. *)
Lemma with_run {A} (self : Jenkins) (body : M A) (w : world) :
  fst (with_ self body w) = fst (body w)
  /\ closes (snd (with_ self body w)) = S (closes (snd (body w)))
  /\ opened (snd (with_ self body w)) = opened (snd (body w)).
Proof.
  unfold with_, __exit__, note_close.
  destruct (body w) as [r w1]. repeat split.
Qed.

(** [main] once the connection is made. *)
Lemma main_connected (E : env) (a : args) (w w1 w2 : world)
    (url : str) (username password : option str) (jenkins : Jenkins) :
  credentials E a (snd (set_debug (a_debug a) w))
  = (Ret (Some (url, username, password)), w1) ->
  connect E a url username password w1 = (Ret (Some jenkins), w2) ->
  main E a w
  = match lint_session E jenkins (a_jenkinsfile a) w2 with
    | (Ret status, w3) => (Ret (if status then 0%Z else 1%Z), w3)
    | (Raise e, w3) => (Raise e, w3)
    end.
Proof.
  intros Hc Hj. unfold main, bind at 1. cbn [set_debug fst snd] in *.
  unfold bind at 1. rewrite Hc. unfold bind at 1. rewrite Hj.
  unfold bind, ret.
  destruct (lint_session E jenkins (a_jenkinsfile a) w2) as [[b|e] w3];
    reflexivity.
Qed.

(** C7 (as amended).  Once the connection is made.  When no file makes
    [lint] raise anything but a [LinterError]: every file is opened, in
    the order of the command line, a [LinterError] counting as a failure
    of its file; the exit code is 0 when every file passed and 1
    otherwise; it is 0 if and only if [lint] returned [True] for every
    file.  When a file makes [lint] raise an exception that is not a
    [LinterError], the files before it raising nothing else than
    [LinterError]s: [main] raises that exception, and the files after
    that one are not opened. *)
Theorem lint_all_files (E : env) (a : args) (w w1 w2 : world)
    (url : str) (username password : option str) (jenkins : Jenkins) :
  credentials E a (snd (set_debug (a_debug a) w))
  = (Ret (Some (url, username, password)), w1) ->
  connect E a url username password w1 = (Ret (Some jenkins), w2) ->
  ((forall p e, In p (a_jenkinsfile a) ->
      lint_outcome E jenkins p = Raise e -> is_LinterError e = true) ->
   fst (main E a w)
   = Ret (if forallb (lint_passes E jenkins) (a_jenkinsfile a)
          then 0%Z else 1%Z)
   /\ opened (snd (main E a w)) = opened w2 ++ a_jenkinsfile a
   /\ (fst (main E a w) = Ret 0%Z <->
       forall p, In p (a_jenkinsfile a) ->
                 lint_outcome E jenkins p = Ret true))
  /\ (forall before p after e,
        a_jenkinsfile a = before ++ p :: after ->
        (forall q e', In q before ->
           lint_outcome E jenkins q = Raise e' -> is_LinterError e' = true) ->
        lint_outcome E jenkins p = Raise e -> is_LinterError e = false ->
        fst (main E a w) = Raise e
        /\ opened (snd (main E a w)) = opened w2 ++ before ++ [p]).
Proof.
  intros Hc Hj. rewrite (main_connected E a w w1 w2 _ _ _ _ Hc Hj).
  destruct (with_run jenkins
              (lint_files (lint E jenkins) (a_jenkinsfile a) true) w2)
    as (Hf & _ & Ho).
  split.
  - intros Hl.
    destruct (lint_files_run E jenkins (a_jenkinsfile a) Hl true w2)
      as [H1 H2].
    rewrite H1 in Hf. rewrite H2 in Ho. cbn [andb] in Hf.
    unfold lint_session.
    destruct (with_ jenkins _ w2) as [[b|e] w3]; simpl in Hf, Ho;
      [|discriminate].
    injection Hf as ->. simpl. split; [reflexivity|]. split; [exact Ho|].
    destruct (forallb (lint_passes E jenkins) (a_jenkinsfile a)) eqn:Hall.
    + split; [|reflexivity]. intros _ p Hin.
      rewrite forallb_forall in Hall. specialize (Hall p Hin).
      unfold lint_passes in Hall.
      destruct (lint_outcome E jenkins p) as [[|]|]; congruence.
    + split; [discriminate|]. intros Hp. exfalso.
      assert (Ht : forallb (lint_passes E jenkins) (a_jenkinsfile a) = true).
      { apply forallb_forall. intros p Hin. unfold lint_passes.
        rewrite (Hp p Hin). reflexivity. }
      congruence.
  - intros before p after e Hfiles Hb Hp He.
    rewrite Hfiles in Hf, Ho.
    destruct (lint_files_abort E jenkins before after p e Hb Hp He true w2)
      as [H1 H2].
    rewrite H1 in Hf. rewrite H2 in Ho.
    unfold lint_session. rewrite Hfiles.
    destruct (with_ jenkins _ w2) as [[b|e'] w3]; simpl in Hf, Ho;
      [discriminate|].
    injection Hf as ->. simpl. split; [reflexivity|exact Ho].
Qed.

Lemma lint_all_files_witness :
  let a := example_args [txt "jf1"; txt "jf2"; txt "jf3"] in
  let w2 := snd (connect timeout_env a (txt "https://example.net/")
                   None None world0) in
  fst (main timeout_env a world0)
  = Ret (if forallb (lint_passes timeout_env example_self) (a_jenkinsfile a)
         then 0%Z else 1%Z)
  /\ opened (snd (main timeout_env a world0)) = opened w2 ++ a_jenkinsfile a
  /\ (fst (main timeout_env a world0) = Ret 0%Z <->
      forall p, In p (a_jenkinsfile a) ->
                lint_outcome timeout_env example_self p = Ret true).
Proof.
  cbv zeta.
  refine (proj1 (lint_all_files timeout_env
                   (example_args [txt "jf1"; txt "jf2"; txt "jf3"])
                   world0 world0 _ (txt "https://example.net/") None None
                   example_self _ _) _).
  - reflexivity.
  - reflexivity.
  - intros p e [<-|[<-|[<-|[]]]]; vm_compute; intros H;
      try discriminate H; injection H as <-; reflexivity.
Defined.

(** C7 as stated fails: the response to the first file has no [data],
    [lint] raises a [KeyError], the loop does not catch it, and the
    second file is never opened. *)
Lemma lint_error_aborts_loop :
  lint_outcome no_data_env example_self (txt "jf1")
  = Raise (KeyError (txt "data"))
  /\ fst (main no_data_env (example_args [txt "jf1"; txt "jf2"]) world0)
     = Raise (KeyError (txt "data"))
  /\ opened (snd (main no_data_env (example_args [txt "jf1"; txt "jf2"])
                    world0))
     = [txt "jf1"].
Proof. repeat split. Qed.

(** Neither the configuration nor the connection closes a session. *)
Lemma credentials_closes (E : env) (a : args) (w : world) :
  closes (snd (credentials E a w)) = closes w.
Proof.
  unfold credentials, try_LinterError, bind, lift, logging_debug,
    logging_error, emit_log, ret.
  destruct (environ E "JENKINS_URL") as [[|c url]|];
    try (destruct (debug_on w); reflexivity);
    destruct (config E (a_config a) (a_profile a)) as [c'|e];
    try reflexivity; destruct (is_LinterError e); reflexivity.
Qed.

Lemma get_crumb_closes (E : env) (self : Jenkins) (w : world) :
  closes (snd (_get_crumb E self w)) = closes w.
Proof.
  unfold _get_crumb, bind.
  pose proof (query_world E self (txt "get") _CRUMB_PATH None None w) as Hw.
  destruct (_query E self (txt "get") _CRUMB_PATH None None w) as [[r|e] w'];
    simpl in Hw; subst w'; [|reflexivity].
  unfold raise, ret, index.
  destruct (negb _); [reflexivity|].
  destruct (nth_error _ 0); [|reflexivity].
  destruct (nth_error _ 1); reflexivity.
Qed.

Lemma connect_closes (E : env) (a : args) (url : str)
    (username password : option str) (w : world) :
  closes (snd (connect E a url username password w)) = closes w.
Proof.
  unfold connect, try_LinterError, Jenkins_init, bind at 1 2 3.
  set (self := {| _url := rstrip_char "/" url;
                  _session := new_session username password (a_insecure a);
                  _timeout := TIMEOUT; _crumb := [] |}).
  assert (H : forall w0, closes (snd (_get_crumb E self w0)) = closes w0)
    by apply get_crumb_closes.
  destruct (a_insecure a); unfold disable_warnings, ret;
    match goal with
    | |- context [_get_crumb E self ?w0] =>
        specialize (H w0); destruct (_get_crumb E self w0) as [[c|e] w1]
    end; simpl in H; unfold bind, ret, logging_error, emit_log;
    try exact H; destruct (is_LinterError e); exact H.
Qed.

(** C9.  The [with] block of [cli.main] closes the session once,
    whatever way the block ends: [with] runs [__exit__] after the block
    and keeps the block's outcome, value or exception, and the loop in
    the block closes nothing; so a run of [main] that makes the
    connection closes the session exactly once.  The three ways in
    [main]: every file linted, a file that raises a [JenkinsError], a
    file whose exception leaves the loop. *)
Theorem session_closed_once
    (E : env) (jenkins : Jenkins) (paths : list str) (w : world) :
  closes (snd (lint_session E jenkins paths w)) = S (closes w)
  /\ (forall (A : Type) (body : M A) (w0 : world),
        closes (snd (with_ jenkins body w0)) = S (closes (snd (body w0)))
        /\ fst (with_ jenkins body w0) = fst (body w0))
  /\ (forall a w1 w2 url username password,
        credentials E a (snd (set_debug (a_debug a) w))
        = (Ret (Some (url, username, password)), w1) ->
        connect E a url username password w1 = (Ret (Some jenkins), w2) ->
        closes (snd (main E a w)) = S (closes w))
  /\ (let run := main (json_env success_json)
                   (example_args [txt "Jenkinsfile"]) world0 in
      fst run = Ret 0%Z /\ closes (snd run) = 1)
  /\ (let run := main timeout_env
                   (example_args [txt "jf1"; txt "jf2"; txt "jf3"])
                   world0 in
      fst run = Ret 1%Z /\ closes (snd run) = 1)
  /\ (let run := main no_data_env
                   (example_args [txt "jf1"; txt "jf2"]) world0 in
      fst run = Raise (KeyError (txt "data")) /\ closes (snd run) = 1).
Proof.
  assert (Hs : forall ps w0,
            closes (snd (lint_session E jenkins ps w0)) = S (closes w0)).
  { intros ps w0. unfold lint_session.
    destruct (with_run jenkins (lint_files (lint E jenkins) ps true) w0)
      as (_ & -> & _).
    rewrite lint_files_closes. reflexivity. }
  split; [apply Hs|]. split; [|split].
  - intros A body w0. destruct (with_run jenkins body w0) as (H1 & H2 & _).
    split; assumption.
  - intros a w1 w2 url username password Hc Hj.
    rewrite (main_connected E a w w1 w2 _ _ _ _ Hc Hj).
    specialize (Hs (a_jenkinsfile a) w2).
    pose proof (credentials_closes E a (snd (set_debug (a_debug a) w))) as H1.
    pose proof (connect_closes E a url username password w1) as H2.
    rewrite Hc in H1. rewrite Hj in H2. simpl in H1, H2.
    destruct (lint_session E jenkins (a_jenkinsfile a) w2) as [[b|e] w3];
      simpl in *; congruence.
  - repeat split.
Qed.

Lemma session_closed_once_witness :
  let a := example_args [txt "jf1"; txt "jf2"] in
  closes (snd (main no_data_env a world0)) = S (closes world0).
Proof.
  cbv zeta.
  exact (proj1 (proj2 (proj2 (session_closed_once no_data_env example_self
           [] world0)))
           (example_args [txt "jf1"; txt "jf2"]) world0 _
           (txt "https://example.net/") None None eq_refl eq_refl).
Defined.

(** ** The credentials *)

Lemma init_run (E : env) (url : str) (username password : option str)
    (insecure : bool) (timeout : Z) (w : world) :
  (exists rq,
     sent (snd (Jenkins_init E url username password insecure timeout w))
     = sent w ++ [rq]
     /\ rq_method rq = txt "get"
     /\ rq_auth rq = auth (new_session username password insecure))
  /\ (forall j,
        fst (Jenkins_init E url username password insecure timeout w) = Ret j ->
        _session j = new_session username password insecure).
Proof.
  unfold Jenkins_init, _get_crumb, _query, try_RequestException,
    session_request, bind, note_sent, disable_warnings, raise, ret, index.
  cbn [_session _url _timeout auth verify].
  set (s := new_session username password insecure).
  destruct insecure; cbn [fst snd sent];
    (destruct (server E _) as [kind m|r];
     [split; [eexists; repeat split|discriminate]|]);
    (destruct (raise_for_status r) as [e|] eqn:He;
     [apply raise_for_status_kind in He as (_ & m & ->);
      split; [eexists; repeat split|discriminate]|]);
    (destruct (negb _);
     [split; [eexists; repeat split|discriminate]|]);
    (destruct (nth_error _ 0);
     [|split; [eexists; repeat split|discriminate]]);
    (destruct (nth_error _ 1);
     [|split; [eexists; repeat split|discriminate]]);
    (split; [eexists; repeat split|intros j H; injection H as <-; reflexivity]).
Qed.

(** C10.  Basic credentials are attached to the session if and only if
    the user name is a non-empty string; with such a user name and no
    password the password is the empty string, and a given password is
    used as it is; the session [__init__] builds is this one, and the
    crumb request it sends carries these credentials. *)
Theorem basic_auth_attached
    (username password : option str) (insecure : bool) :
  (auth (new_session username password insecure) <> None <->
   exists u, username = Some u /\ u <> [])
  /\ (forall u,
        username = Some u -> u <> [] -> password = None ->
        auth (new_session username password insecure) = Some (u, []))
  /\ (forall u p,
        username = Some u -> u <> [] -> password = Some p ->
        auth (new_session username password insecure) = Some (u, p))
  /\ (forall E url timeout w,
        (exists rq,
           sent (snd (Jenkins_init E url username password insecure
                        timeout w))
           = sent w ++ [rq]
           /\ rq_method rq = txt "get"
           /\ rq_auth rq = auth (new_session username password insecure))
        /\ (forall j,
              fst (Jenkins_init E url username password insecure timeout w)
              = Ret j ->
              _session j = new_session username password insecure)).
Proof.
  split; [|split; [|split]].
  - unfold new_session; cbn [auth]. split.
    + destruct username as [[|c u]|]; try congruence.
      intros _. exists (c :: u). split; [reflexivity|discriminate].
    + intros (u & -> & Hu). destruct u; [congruence|discriminate].
  - intros u -> Hu ->. destruct u; [congruence|reflexivity].
  - intros u p -> Hu ->. destruct u; [congruence|].
    destruct p; reflexivity.
  - intros E url timeout w. apply init_run.
Qed.

Lemma basic_auth_attached_witness :
  (Some (txt "username") = Some (txt "username") /\ txt "username" <> []
   /\ auth (new_session (Some (txt "username")) None false)
      = Some (txt "username", []))
  /\ (auth (new_session (Some ([] : str)) (Some (txt "password")) false)
      <> None <->
      exists u, Some ([] : str) = Some u /\ u <> []).
Proof.
  assert (Hu : txt "username" <> []) by discriminate.
  split.
  - split; [reflexivity|]. split; [exact Hu|].
    exact (proj1 (proj2 (basic_auth_attached (Some (txt "username")) None
             false)) (txt "username") eq_refl Hu eq_refl).
  - exact (proj1 (basic_auth_attached (Some ([] : str))
             (Some (txt "password")) false)).
Defined.

(* ===================================================================== *)
(** * Further properties *)
(* ===================================================================== *)

(** ** The connection *)

Lemma lstrip_char_repeat (a : ascii) (n : nat) (l : str) :
  lstrip_char a (repeat a n ++ l) = lstrip_char a l.
Proof.
  induction n as [|n IH]; [reflexivity|].
  simpl. rewrite Ascii.eqb_refl. exact IH.
Qed.

Lemma rev_repeat (a : ascii) (n : nat) : rev (repeat a n) = repeat a n.
Proof.
  induction n as [|n IH]; [reflexivity|].
  simpl. rewrite IH. clear IH.
  induction n as [|n IH]; [reflexivity|]. simpl. rewrite IH. reflexivity.
Qed.

(** [rstrip("/")] removes every final slash and nothing else. *)
Lemma rstrip_char_repeat (base : str) (n : nat) :
  ends_with is_slash base = false ->
  rstrip_char "/" (base ++ repeat "/"%char n) = base.
Proof.
  intros H. unfold rstrip_char.
  rewrite rev_app_distr, rev_repeat, lstrip_char_repeat.
  unfold ends_with, is_slash in H.
  destruct (rev base) as [|c l] eqn:Hr.
  - simpl. apply (f_equal (@rev ascii)) in Hr.
    rewrite rev_involutive in Hr. exact (eq_sym Hr).
  - simpl. rewrite H. rewrite <- Hr. apply rev_involutive.
Qed.

(** What [__init__] sends and leaves behind. *)
Lemma init_trace (E : env) (url : str) (username password : option str)
    (insecure : bool) (timeout : Z) (w : world) :
  let self := init_self url username password insecure timeout in
  let run := Jenkins_init E url username password insecure timeout w in
  sent (snd run) = sent w ++ [crumb_request self]
  /\ warnings_off (snd run) = insecure || warnings_off w
  /\ opened (snd run) = opened w
  /\ logged (snd run) = logged w
  /\ (forall j,
        fst run = Ret j ->
        _url j = _url self /\ _session j = _session self
        /\ _timeout j = timeout).
Proof.
  cbv zeta.
  unfold Jenkins_init, _get_crumb, _query, try_RequestException,
    session_request, bind, note_sent, disable_warnings, raise, ret, index.
  fold (init_self url username password insecure timeout).
  set (self := init_self url username password insecure timeout).
  cbn [_session _url _timeout].
  fold (crumb_request self).
  assert (Hfin : forall (o : outcome Jenkins) (w' : world),
            sent w' = sent w ++ [crumb_request self] ->
            warnings_off w' = insecure || warnings_off w ->
            opened w' = opened w -> logged w' = logged w ->
            (forall j, o = Ret j ->
               _url j = _url self /\ _session j = _session self
               /\ _timeout j = timeout) ->
            sent (snd (o, w')) = sent w ++ [crumb_request self]
            /\ warnings_off (snd (o, w')) = insecure || warnings_off w
            /\ opened (snd (o, w')) = opened w
            /\ logged (snd (o, w')) = logged w
            /\ (forall j, fst (o, w') = Ret j ->
                  _url j = _url self /\ _session j = _session self
                  /\ _timeout j = timeout)) by (intros; simpl; auto).
  destruct insecure;
    (destruct (server E _) as [kind m|r];
     [apply Hfin; try reflexivity; discriminate|]);
    (destruct (raise_for_status r) as [e|] eqn:He;
     [apply raise_for_status_kind in He as (_ & m & ->);
      apply Hfin; try reflexivity; discriminate|]);
    (destruct (negb _); [apply Hfin; try reflexivity; discriminate|]);
    (destruct (nth_error _ 0); [|apply Hfin; try reflexivity; discriminate]);
    (destruct (nth_error _ 1); [|apply Hfin; try reflexivity; discriminate]);
    (apply Hfin; try reflexivity;
     intros j H; injection H as <-; repeat split).
Qed.

(** X1.  Whatever number of slashes ends the URL given to [__init__],
    the base URL kept has none, and the URL of every request is the base,
    one slash and the path. *)
Theorem url_trailing_slashes
    (E : env) (base : str) (n : nat) (username password : option str)
    (insecure : bool) (timeout : Z) (w : world) :
  ends_with is_slash base = false ->
  let run := Jenkins_init E (base ++ repeat "/"%char n) username password
               insecure timeout w in
  (exists rq,
     sent (snd run) = sent w ++ [rq]
     /\ rq_url rq = base ++ txt "/" ++ _CRUMB_PATH)
  /\ (forall j,
        fst run = Ret j ->
        _url j = base
        /\ forall method path data headers,
             rq_url (query_request j method path data headers)
             = base ++ txt "/" ++ path).
Proof.
  intros Hb. cbv zeta.
  destruct (init_trace E (base ++ repeat "/"%char n) username password
              insecure timeout w) as (Hs & _ & _ & _ & Hj).
  cbn [init_self _url] in Hj.
  rewrite (rstrip_char_repeat base n Hb) in Hj.
  split.
  - eexists. split; [exact Hs|].
    unfold crumb_request, query_request, init_self. cbn [rq_url _url].
    rewrite (rstrip_char_repeat base n Hb). reflexivity.
  - intros j H. destruct (Hj j H) as (Hu & _ & _).
    split; [exact Hu|]. intros method path data headers.
    unfold query_request. cbn [rq_url]. rewrite Hu. reflexivity.
Qed.

Lemma url_trailing_slashes_witness :
  ends_with is_slash (txt "https://example.net") = false
  /\ exists rq,
       sent (snd (Jenkins_init (json_env success_json)
                    (txt "https://example.net" ++ repeat "/"%char 3)
                    None None false TIMEOUT world0))
       = sent world0 ++ [rq]
       /\ rq_url rq = txt "https://example.net" ++ txt "/" ++ _CRUMB_PATH.
Proof.
  split; [reflexivity|].
  exact (proj1 (url_trailing_slashes (json_env success_json)
           (txt "https://example.net") 3 None None false TIMEOUT world0
           eq_refl)).
Defined.

(** X2.  The [insecure] flag and the session: the [verify] attribute
    of the session is the negation of the flag when the crumb request is
    made and at every later request of the object, which nothing resets;
    the certificate warnings are switched off exactly when the flag is on
    (they stay off when they were).  What the library makes of the
    attribute when it sends the request is not part of the statement. *)
Theorem insecure_flag
    (E : env) (url : str) (username password : option str)
    (insecure : bool) (timeout : Z) (w : world) :
  let run := Jenkins_init E url username password insecure timeout w in
  (exists rq,
     sent (snd run) = sent w ++ [rq] /\ rq_verify rq = negb insecure)
  /\ warnings_off (snd run) = insecure || warnings_off w
  /\ (forall j,
        fst run = Ret j ->
        verify (_session j) = negb insecure
        /\ forall method path data headers w',
             exists rq,
               sent (snd (_query E j method path data headers w'))
               = sent w' ++ [rq]
               /\ rq_verify rq = negb insecure).
Proof.
  cbv zeta.
  destruct (init_trace E url username password insecure timeout w)
    as (Hs & Hw & _ & _ & Hj).
  split; [|split].
  - eexists. split; [exact Hs|]. reflexivity.
  - exact Hw.
  - intros j H. destruct (Hj j H) as (_ & Hse & _).
    split; [rewrite Hse; reflexivity|].
    intros method path data headers w'.
    exists (query_request j method path data headers).
    rewrite query_world. split; [reflexivity|].
    unfold query_request. cbn [rq_verify]. rewrite Hse. reflexivity.
Qed.

(** ** The crumb, once the prefix test has passed *)

Lemma lower_char_space (c : ascii) : is_space (lower_char c) = is_space c.
Proof. destruct c as [[] [] [] [] [] [] [] []]; reflexivity. Qed.

Lemma lower_char_colon (c : ascii) :
  Ascii.eqb (lower_char c) ":" = Ascii.eqb c ":".
Proof. destruct c as [[] [] [] [] [] [] [] []]; reflexivity. Qed.

Lemma split_nonempty (sep : ascii) (s : str) :
  exists piece pieces, split sep s = piece :: pieces.
Proof.
  destruct s as [|c t]; simpl; [eauto|].
  destruct (Ascii.eqb c sep); [eauto|].
  destruct (split sep t); eauto.
Qed.

Lemma strip_kept (s : str) :
  stops is_space s -> ends_with is_space s = false -> strip s = s.
Proof.
  intros H1 H2. unfold strip.
  assert (Hl : lstrip s = s).
  { destruct s as [|c t]; [reflexivity|]. simpl in *. rewrite H1.
    reflexivity. }
  rewrite Hl. unfold rstrip, ends_with in *.
  destruct (rev s) as [|c t] eqn:Hr.
  - apply (f_equal (@rev ascii)) in Hr. rewrite rev_involutive in Hr.
    subst s. reflexivity.
  - simpl. rewrite H2. rewrite <- Hr. apply rev_involutive.
Qed.

(** A text that begins, whatever the case, with [jenkins-crumb:]: its
    first thirteen characters, then a colon. *)
Lemma crumb_prefix (t : str) :
  startswith (lower t) (txt "jenkins-crumb:") = true ->
  exists name rest,
    t = name ++ ":"%char :: rest
    /\ lower name = txt "jenkins-crumb"
    /\ no_colon name /\ strip name = name.
Proof.
  unfold startswith. intros H.
  destruct (strip_prefix (txt "jenkins-crumb:") (lower t)) as [r|] eqn:Hp;
    [clear H|discriminate].
  apply strip_prefix_Some in Hp. unfold lower in Hp.
  do 14 (destruct t as [|? t]; [discriminate Hp|]).
  cbn [map txt list_ascii_of_string app] in Hp.
  injection Hp as H1 H2 H3 H4 H5 H6 H7 H8 H9 H10 H11 H12 H13 H14 _.
  assert (Hc : forall c x, lower_char c = x -> Ascii.eqb x ":" = false ->
                 is_space x = false ->
                 Ascii.eqb c ":" = false /\ is_space c = false).
  { intros c x <- Hx Hs. rewrite <- lower_char_colon, <- lower_char_space.
    auto. }
  destruct (Hc _ _ H1 eq_refl eq_refl) as [C1 S1].
  destruct (Hc _ _ H2 eq_refl eq_refl) as [C2 _].
  destruct (Hc _ _ H3 eq_refl eq_refl) as [C3 _].
  destruct (Hc _ _ H4 eq_refl eq_refl) as [C4 _].
  destruct (Hc _ _ H5 eq_refl eq_refl) as [C5 _].
  destruct (Hc _ _ H6 eq_refl eq_refl) as [C6 _].
  destruct (Hc _ _ H7 eq_refl eq_refl) as [C7 _].
  destruct (Hc _ _ H8 eq_refl eq_refl) as [C8 _].
  destruct (Hc _ _ H9 eq_refl eq_refl) as [C9 _].
  destruct (Hc _ _ H10 eq_refl eq_refl) as [C10 _].
  destruct (Hc _ _ H11 eq_refl eq_refl) as [C11 _].
  destruct (Hc _ _ H12 eq_refl eq_refl) as [C12 _].
  destruct (Hc _ _ H13 eq_refl eq_refl) as [C13 S13].
  assert (E14 : a12 = ":"%char).
  { apply Ascii.eqb_eq. rewrite <- lower_char_colon, H14. reflexivity. }
  subst a12.
  exists [a; a0; a1; a2; a3; a4; a5; a6; a7; a8; a9; a10; a11], t.
  split; [reflexivity|]. split; [|split].
  - unfold lower. cbn [map].
    rewrite H1, H2, H3, H4, H5, H6, H7, H8, H9, H10, H11, H12, H13.
    reflexivity.
  - unfold no_colon. cbn [forallb].
    rewrite C1, C2, C3, C4, C5, C6, C7, C8, C9, C10, C11, C12, C13.
    reflexivity.
  - apply strip_kept; [exact S1|].
    unfold ends_with. cbn [rev app]. exact S13.
Qed.

(** X3.  When the crumb endpoint answers with a text that passes the
    prefix test, [_get_crumb] never fails: the text has a second piece,
    the header name is the first thirteen characters of the text,
    unchanged (a spelling of [jenkins-crumb]), and the value is what
    stands between the first colon and the next one (or the end),
    stripped. *)
Theorem get_crumb_accepted
    (E : env) (self : Jenkins) (r : response) (w : world) :
  server E (crumb_request self) = Answered r ->
  ~ error_status (status_code r) ->
  startswith (lower (text r)) (txt "jenkins-crumb:") = true ->
  exists name value rest,
    fst (_get_crumb E self w) = Ret [(name, strip value)]
    /\ lower name = txt "jenkins-crumb"
    /\ no_colon value
    /\ (text r = name ++ ":"%char :: value
        \/ text r = name ++ ":"%char :: value ++ ":"%char :: rest).
Proof.
  intros Hs Hok Hp.
  destruct (crumb_prefix (text r) Hp) as (name & rest & Ht & Hl & Hn & Hst).
  rewrite (get_crumb_outcome E self r w Hs Hok), Hp, Ht.
  rewrite (split_first ":" name rest Hn).
  assert (Hv : exists value more,
            no_colon value
            /\ (rest = value \/ rest = value ++ ":"%char :: more)
            /\ exists pieces, split ":" rest = value :: pieces).
  { clear. induction rest as [|c t (value & more & Hv & Hr & pieces & Hp)].
    - exists [], []. repeat split; eauto. simpl; eauto.
    - simpl. destruct (Ascii.eqb_spec c ":") as [->|Hc].
      + exists [], t. split; [reflexivity|]. split; [right; reflexivity|].
        eauto.
      + rewrite Hp. exists (c :: value), more. split.
        * unfold no_colon in *. simpl.
          destruct (Ascii.eqb_spec c ":"); [contradiction|]. exact Hv.
        * split; [|eauto]. destruct Hr as [->| ->]; [left|right];
            reflexivity. }
  destruct Hv as (value & more & Hv & Hr & pieces & Hp').
  rewrite Hp'. exists name, value, more. rewrite Hst.
  split; [reflexivity|]. split; [exact Hl|]. split; [exact Hv|].
  destruct Hr as [->| ->]; [left|right]; reflexivity.
Qed.

Lemma get_crumb_accepted_witness :
  server (json_env success_json) (crumb_request example_self)
  = Answered (ok_response (txt "Jenkins-Crumb:0123456789abcdef") None)
  /\ ~ error_status 200
  /\ exists name value rest,
       fst (_get_crumb (json_env success_json) example_self world0)
       = Ret [(name, strip value)]
       /\ lower name = txt "jenkins-crumb"
       /\ no_colon value
       /\ (txt "Jenkins-Crumb:0123456789abcdef" = name ++ ":"%char :: value
           \/ txt "Jenkins-Crumb:0123456789abcdef"
              = name ++ ":"%char :: value ++ ":"%char :: rest).
Proof.
  assert (H : ~ error_status 200) by (unfold error_status; lia).
  split; [reflexivity|]. split; [exact H|].
  exact (get_crumb_accepted (json_env success_json) example_self
           (ok_response (txt "Jenkins-Crumb:0123456789abcdef") None)
           world0 eq_refl H eq_refl).
Defined.

(** ** [lint]: files, bodies and the order of its effects *)

Lemma lint_sent (E : env) (self : Jenkins) (path : str) (w : world) :
  sent (snd (lint E self path w)) = sent w ++ posts E self path.
Proof.
  rewrite lint_run. unfold posts. cbv zeta.
  destruct (fs E path) as [m|m|content];
    try (simpl; rewrite app_nil_r; reflexivity).
  destruct (server E _) as [kind m|r]; [reflexivity|].
  destruct (raise_for_status r); [reflexivity|].
  destruct (body_json r) as [result|]; [|reflexivity].
  rewrite lint_result_run.
  destruct (collect_errors result); reflexivity.
Qed.

(** X4.  A file that cannot be opened, or whose bytes are not text:
    [lint] raises a [JenkinsError] that carries the text of the system
    error, sends no request and prints nothing; the loop of [main] logs
    that text, counts the file as failed and goes on with the files that
    follow, whatever they are. *)
Theorem lint_unreadable_file
    (E : env) (self : Jenkins) (path m : str) (w : world) :
  fs E path = Unreadable m \/ fs E path = Undecodable m ->
  (exists c,
     fst (lint E self path w) = Raise (JenkinsError c)
     /\ cause_str c = m
     /\ (c = OSError m \/ c = UnicodeDecodeError m))
  /\ sent (snd (lint E self path w)) = sent w
  /\ stdout (snd (lint E self path w)) = stdout w
  /\ (exists w',
        (forall paths status,
           lint_files (lint E self) (path :: paths) status w
           = lint_files (lint E self) paths false w')
        /\ logged w' = logged w ++ [m]
        /\ opened w' = opened w ++ [path]
        /\ sent w' = sent w
        /\ stdout w' = stdout w
        /\ closes w' = closes w).
Proof.
  intros H.
  assert (Hl : exists c,
            lint E self path w
            = (Raise (JenkinsError c), snd (note_open path w))
            /\ cause_str c = m
            /\ (c = OSError m \/ c = UnicodeDecodeError m)).
  { rewrite lint_run. cbv zeta. destruct H as [-> | ->]; eauto. }
  destruct Hl as (c & Hl & Hc & Hk).
  split; [exists c; rewrite Hl; auto|].
  split; [rewrite Hl; reflexivity|]. split; [rewrite Hl; reflexivity|].
  exists (snd (emit_log m (snd (note_open path w)))).
  split; [|repeat split].
  intros paths status. rewrite lint_files_step, Hl.
  cbn [is_LinterError exn_str]. rewrite Hc, andb_false_r. reflexivity.
Qed.

Lemma lint_unreadable_file_witness :
  (fs colon_crumb_env (txt "Jenkinsfile") = Unreadable (txt "unused")
   \/ fs colon_crumb_env (txt "Jenkinsfile") = Undecodable (txt "unused"))
  /\ sent (snd (lint colon_crumb_env example_self (txt "Jenkinsfile")
                  world0))
     = sent world0.
Proof.
  split; [left; reflexivity|].
  exact (proj1 (proj2 (lint_unreadable_file colon_crumb_env example_self
           (txt "Jenkinsfile") (txt "unused") world0
           (or_introl eq_refl)))).
Defined.

(** X5.  A response whose body is not JSON: [lint] raises an exception
    that is not a [LinterError] and prints nothing; the loop of [main]
    does not catch it, and the files after this one are not opened. *)
Theorem lint_body_not_json
    (E : env) (self : Jenkins) (path content : str) (r : response)
    (w : world) :
  fs E path = Content content ->
  server E (validation_request self content) = Answered r ->
  ~ error_status (status_code r) ->
  body_json r = None ->
  exists e,
    is_LinterError e = false
    /\ fst (lint E self path w) = Raise e
    /\ stdout (snd (lint E self path w)) = stdout w
    /\ (forall paths status,
          let run := lint_files (lint E self) (path :: paths) status w in
          fst run = Raise e /\ opened (snd run) = opened w ++ [path]).
Proof.
  intros Hfs Hsrv Hok Hbody.
  exists (RequestError "JSONDecodeError" (txt "Expecting value")).
  assert (Hl : lint E self path w
               = (Raise (RequestError "JSONDecodeError"
                           (txt "Expecting value")),
                  snd (note_sent (validation_request self content)
                         (snd (note_open path w))))).
  { rewrite lint_run, Hfs. cbv zeta.
    rewrite Hsrv, (raise_for_status_other r Hok), Hbody. reflexivity. }
  split; [reflexivity|]. rewrite Hl.
  split; [reflexivity|]. split; [reflexivity|].
  intros paths status. cbv zeta. rewrite lint_files_step, Hl.
  split; reflexivity.
Qed.

Lemma lint_body_not_json_witness :
  let r := {| status_code := 200; text := txt "<html>"; body_json := None |} in
  let E' := scenario good_crumb (fun _ => Answered r)
              (fun _ => Content (txt "pipeline {}")) in
  fs E' (txt "Jenkinsfile") = Content (txt "pipeline {}")
  /\ ~ error_status (status_code r)
  /\ exists e,
       is_LinterError e = false
       /\ fst (lint E' example_self (txt "Jenkinsfile") world0) = Raise e.
Proof.
  cbv zeta.
  assert (H : ~ error_status 200) by (unfold error_status; lia).
  split; [reflexivity|]. split; [exact H|].
  destruct (lint_body_not_json
              (scenario good_crumb
                 (fun _ => Answered {| status_code := 200;
                                       text := txt "<html>";
                                       body_json := None |})
                 (fun _ => Content (txt "pipeline {}")))
              example_self (txt "Jenkinsfile") (txt "pipeline {}")
              {| status_code := 200; text := txt "<html>";
                 body_json := None |}
              world0 eq_refl eq_refl H eq_refl)
    as (e & He & Hl & _).
  exists e. split; assumption.
Defined.








(** ** The requests of a run of [main] *)

(** [main], branch by branch. *)
Lemma main_run (E : env) (a : args) (w : world) :
  main E a w
  = match credentials E a (snd (set_debug (a_debug a) w)) with
    | (Raise e, w1) => (Raise e, w1)
    | (Ret None, w1) => (Ret 1%Z, w1)
    | (Ret (Some (url, username, password)), w1) =>
        match connect E a url username password w1 with
        | (Raise e, w2) => (Raise e, w2)
        | (Ret None, w2) => (Ret 1%Z, w2)
        | (Ret (Some jenkins), w2) =>
            match lint_session E jenkins (a_jenkinsfile a) w2 with
            | (Ret status, w3) => (Ret (if status then 0%Z else 1%Z), w3)
            | (Raise e, w3) => (Raise e, w3)
            end
        end
    end.
Proof.
  unfold main, bind at 1. cbn [set_debug fst snd]. unfold bind at 1.
  destruct (credentials E a _) as [[[[[url username] password]|]|e] w1];
    try reflexivity.
  unfold bind at 1.
  destruct (connect E a url username password w1) as [[[jenkins|]|e] w2];
    reflexivity.
Qed.

Lemma credentials_sent (E : env) (a : args) (w : world) :
  sent (snd (credentials E a w)) = sent w
  /\ opened (snd (credentials E a w)) = opened w.
Proof.
  unfold credentials, try_LinterError, bind, lift, logging_debug,
    logging_error, emit_log, ret.
  destruct (environ E "JENKINS_URL") as [[|c url]|];
    try (destruct (debug_on w); split; reflexivity);
    destruct (config E (a_config a) (a_profile a)) as [c'|e];
    try (split; reflexivity); destruct (is_LinterError e); split; reflexivity.
Qed.

(** What [connect] sends, and the object it returns. *)
Lemma connect_trace (E : env) (a : args) (url : str)
    (username password : option str) (w : world) :
  let self := init_self url username password (a_insecure a) TIMEOUT in
  let run := connect E a url username password w in
  sent (snd run) = sent w ++ [crumb_request self]
  /\ opened (snd run) = opened w
  /\ (forall j,
        fst run = Ret (Some j) ->
        _url j = _url self /\ _session j = _session self
        /\ _timeout j = TIMEOUT).
Proof.
  cbv zeta.
  destruct (init_trace E url username password (a_insecure a) TIMEOUT w)
    as (Hs & _ & Ho & _ & Hj).
  unfold connect, try_LinterError, bind, ret, logging_error, emit_log.
  destruct (Jenkins_init E url username password (a_insecure a) TIMEOUT w)
    as [[j|e] w1]; cbn [fst snd] in *.
  - split; [exact Hs|]. split; [exact Ho|].
    intros j' H. injection H as <-. apply Hj. reflexivity.
  - destruct (is_LinterError e); cbn [fst snd sent opened];
      (split; [exact Hs|]; split; [exact Ho|]; intros j' H; discriminate H).
Qed.

Lemma with_sent {A} (self : Jenkins) (body : M A) (w : world) :
  sent (snd (with_ self body w)) = sent (snd (body w)).
Proof.
  unfold with_, __exit__, note_close. destruct (body w); reflexivity.
Qed.

(** The loop sends the requests of its files, in order, up to the file
    whose exception leaves it. *)
Lemma lint_files_sent_prefix (E : env) (jenkins : Jenkins)
    (paths : list str) : forall status w,
  exists k,
    sent (snd (lint_files (lint E jenkins) paths status w))
    = sent w ++ flat_map (posts E jenkins) (firstn k paths).
Proof.
  induction paths as [|path paths IH]; intros status w.
  - exists 0. simpl. rewrite app_nil_r. reflexivity.
  - rewrite lint_files_step.
    pose proof (lint_sent E jenkins path w) as Hs.
    destruct (lint E jenkins path w) as [[b|e] w']; cbn [snd] in Hs.
    + destruct (IH (status && b) w') as [k Hk]. exists (S k).
      rewrite Hk, Hs. cbn [firstn flat_map]. rewrite app_assoc.
      reflexivity.
    + destruct (is_LinterError e).
      * destruct (IH (status && false) (snd (emit_log (exn_str e) w')))
          as [k Hk].
        exists (S k). rewrite Hk. cbn [emit_log snd sent]. rewrite Hs.
        cbn [firstn flat_map]. rewrite app_assoc. reflexivity.
      * exists 1. cbn [snd firstn flat_map]. rewrite Hs, app_nil_r.
        reflexivity.
Qed.

Lemma lint_files_sent (E : env) (jenkins : Jenkins) (paths : list str) :
  (forall p e, In p paths -> lint_outcome E jenkins p = Raise e ->
               is_LinterError e = true) ->
  forall status w,
    sent (snd (lint_files (lint E jenkins) paths status w))
    = sent w ++ flat_map (posts E jenkins) paths.
Proof.
  induction paths as [|path paths IH]; intros Hl status w.
  - simpl. rewrite app_nil_r. reflexivity.
  - rewrite lint_files_step.
    pose proof (lint_sent E jenkins path w) as Hs.
    pose proof (lint_outcome_eq E jenkins path w) as Ho.
    assert (Hl' : forall p e, In p paths ->
              lint_outcome E jenkins p = Raise e -> is_LinterError e = true)
      by (intros p e Hin; apply Hl; right; exact Hin).
    destruct (lint E jenkins path w) as [[b|e] w']; cbn [fst snd] in Hs, Ho.
    + rewrite (IH Hl'), Hs. cbn [flat_map]. rewrite app_assoc. reflexivity.
    + rewrite (Hl path e (or_introl eq_refl) (eq_sym Ho)).
      rewrite (IH Hl'). cbn [emit_log snd sent]. rewrite Hs.
      cbn [flat_map]. rewrite app_assoc. reflexivity.
Qed.

(** X8.  The requests of a run that makes the connection and in which no
    file raises anything but a [LinterError]: the crumb request, once,
    then one validation request for each file that could be read, in
    the order of the command line; each of them is a POST to the
    validation path of the base URL, with the content of the file in the
    field [jenkinsfile] and the crumb of the connection as its
    headers. *)
Theorem main_requests (E : env) (a : args) (w w1 w2 : world)
    (url : str) (username password : option str) (jenkins : Jenkins) :
  credentials E a (snd (set_debug (a_debug a) w))
  = (Ret (Some (url, username, password)), w1) ->
  connect E a url username password w1 = (Ret (Some jenkins), w2) ->
  (forall p e, In p (a_jenkinsfile a) ->
     lint_outcome E jenkins p = Raise e -> is_LinterError e = true) ->
  sent (snd (main E a w))
  = sent w
    ++ crumb_request (init_self url username password (a_insecure a) TIMEOUT)
       :: flat_map (posts E jenkins) (a_jenkinsfile a)
  /\ (forall p rq,
        In rq (posts E jenkins p) ->
        exists content,
          fs E p = Content content
          /\ rq_method rq = txt "post"
          /\ rq_url rq = _url jenkins ++ txt "/" ++ _VALIDATOR_PATH
          /\ rq_data rq = Some [(txt "jenkinsfile", content)]
          /\ rq_headers rq = Some (_crumb jenkins)).
Proof.
  intros Hc Hj Hl. split.
  - rewrite (main_connected E a w w1 w2 _ _ _ _ Hc Hj).
    pose proof (proj1 (credentials_sent E a (snd (set_debug (a_debug a) w))))
      as H1.
    pose proof (proj1 (connect_trace E a url username password w1)) as H2.
    rewrite Hc in H1. rewrite Hj in H2. cbn [fst snd set_debug sent] in H1, H2.
    pose proof (with_sent jenkins
                  (lint_files (lint E jenkins) (a_jenkinsfile a) true) w2)
      as H3.
    rewrite (lint_files_sent E jenkins (a_jenkinsfile a) Hl) in H3.
    unfold lint_session.
    destruct (with_ jenkins _ w2) as [[b|e] w3]; cbn [snd] in *;
      rewrite H3, H2, H1, <- app_assoc; reflexivity.
  - intros p rq Hin. unfold posts in Hin.
    destruct (fs E p) as [m|m|content]; try contradiction.
    destruct Hin as [<-|[]]. exists content. repeat split.
Qed.

Lemma main_requests_witness :
  let a := example_args [txt "jf1"; txt "jf2"; txt "jf3"] in
  sent (snd (main timeout_env a world0))
  = sent world0
    ++ crumb_request (init_self (txt "https://example.net/") None None
                        (a_insecure a) TIMEOUT)
       :: flat_map (posts timeout_env example_self) (a_jenkinsfile a).
Proof.
  cbv zeta.
  refine (proj1 (main_requests timeout_env
           (example_args [txt "jf1"; txt "jf2"; txt "jf3"])
           world0 world0 _ (txt "https://example.net/") None None
           example_self eq_refl eq_refl _)).
  intros p e [<-|[<-|[<-|[]]]]; vm_compute; intros H;
    try discriminate H; injection H as <-; reflexivity.
Defined.

(** X9.  The [--timeout] option has no effect: every request of every
    run of [main] carries the default timeout of 30 seconds, whatever
    the option says and however the run ends. *)
Theorem main_timeout_is_default (E : env) (a : args) (w : world) :
  exists requests,
    sent (snd (main E a w)) = sent w ++ requests
    /\ Forall (fun rq => rq_timeout rq = 30%Z) requests.
Proof.
  rewrite main_run.
  pose proof (proj1 (credentials_sent E a (snd (set_debug (a_debug a) w))))
    as H1. cbn [set_debug snd sent] in H1.
  destruct (credentials E a _) as [[[[[url username] password]|]|e] w1];
    cbn [snd] in H1;
    try (exists []; cbn [snd]; rewrite app_nil_r; split;
         [exact H1|constructor]).
  destruct (connect_trace E a url username password w1) as (H2 & _ & Hj).
  destruct (connect E a url username password w1) as [[[jenkins|]|e] w2];
    cbn [fst snd] in H2, Hj;
    try (eexists; cbn [snd]; rewrite H2, H1; split;
         [reflexivity|repeat constructor]).
  destruct (Hj jenkins eq_refl) as (_ & _ & Ht).
  destruct (lint_files_sent_prefix E jenkins (a_jenkinsfile a) true w2)
    as [k Hk].
  pose proof (with_sent jenkins
                (lint_files (lint E jenkins) (a_jenkinsfile a) true) w2)
    as H3.
  rewrite Hk, H2, H1 in H3. unfold lint_session.
  exists (crumb_request
            (init_self url username password (a_insecure a) TIMEOUT)
          :: flat_map (posts E jenkins) (firstn k (a_jenkinsfile a))).
  split.
  - destruct (with_ jenkins _ w2) as [[b|e] w3]; cbn [snd] in *;
      rewrite H3, <- app_assoc; reflexivity.
  - constructor; [reflexivity|].
    apply Forall_forall. intros rq Hin.
    apply in_flat_map in Hin as (p & _ & Hin). unfold posts in Hin.
    destruct (fs E p); try contradiction. destruct Hin as [<-|[]].
    exact Ht.
Qed.

(** ** [main] before the loop *)

Lemma credentials_logged_config (E : env) (a : args) (w : world)
    (c : cause) :
  environ E "JENKINS_URL" = None \/ environ E "JENKINS_URL" = Some [] ->
  config E (a_config a) (a_profile a) = Raise (ConfigError c) ->
  credentials E a w = (Ret None, snd (emit_log (cause_str c) w)).
Proof.
  intros Hu Hc. unfold credentials, try_LinterError, bind, lift.
  destruct Hu as [-> | ->]; rewrite Hc; reflexivity.
Qed.

(** X10.  [main] returns 0 or 1 and nothing else.  When the
    configuration raises a [ConfigError] (no [JENKINS_URL] in the
    environment), [main] logs its text and returns 1 without any request.
    When the connection raises a [JenkinsError], [main] logs its text and
    returns 1; no file is opened, and the session, which was created, is
    not closed. *)
Theorem main_early_exit (E : env) (a : args) (w : world) :
  (forall z, fst (main E a w) = Ret z -> z = 0%Z \/ z = 1%Z)
  /\ (forall c,
        environ E "JENKINS_URL" = None
        \/ environ E "JENKINS_URL" = Some [] ->
        config E (a_config a) (a_profile a) = Raise (ConfigError c) ->
        main E a w
        = (Ret 1%Z,
           snd (emit_log (cause_str c) (snd (set_debug (a_debug a) w)))))
  /\ (forall url username password w1 c w',
        credentials E a (snd (set_debug (a_debug a) w))
        = (Ret (Some (url, username, password)), w1) ->
        Jenkins_init E url username password (a_insecure a) TIMEOUT w1
        = (Raise (JenkinsError c), w') ->
        fst (main E a w) = Ret 1%Z
        /\ logged (snd (main E a w)) = logged w1 ++ [cause_str c]
        /\ opened (snd (main E a w)) = opened w
        /\ closes (snd (main E a w)) = closes w).
Proof.
  split; [|split].
  - intros z. rewrite main_run.
    destruct (credentials E a _) as [[[[[url username] password]|]|e] w1];
      cbn [fst]; try discriminate; try (intros H; injection H as <-; auto).
    destruct (connect E a url username password w1) as [[[jenkins|]|e] w2];
      cbn [fst]; try discriminate; try (intros H; injection H as <-; auto).
    destruct (lint_session E jenkins (a_jenkinsfile a) w2) as [[[|]|e] w3];
      cbn [fst]; try discriminate; intros H; injection H as <-; auto.
  - intros c Hu Hc. rewrite main_run.
    rewrite (credentials_logged_config E a _ c Hu Hc). reflexivity.
  - intros url username password w1 c w' Hc Hi. rewrite main_run, Hc.
    pose proof (init_trace E url username password (a_insecure a) TIMEOUT w1)
      as (_ & _ & Ho & Hlog & _).
    pose proof (credentials_sent E a (snd (set_debug (a_debug a) w)))
      as [_ Ho1].
    pose proof (credentials_closes E a (snd (set_debug (a_debug a) w)))
      as Hc1.
    pose proof (connect_closes E a url username password w1) as Hc2.
    rewrite Hc in Ho1, Hc1. cbn [snd set_debug opened closes] in Ho1, Hc1.
    unfold connect, try_LinterError, bind, ret, logging_error, emit_log
      in *.
    rewrite Hi in *. cbn [is_LinterError fst snd exn_str logged opened closes]
      in *.
    repeat split; congruence.
Qed.

Lemma main_early_exit_witness :
  let E := forbidden_env in
  let a := example_args [txt "Jenkinsfile"] in
  fst (main E a world0) = Ret 1%Z
  /\ logged (snd (main E a world0))
     = logged world0 ++ [txt "403 Client Error"]
  /\ opened (snd (main E a world0)) = opened world0
  /\ closes (snd (main E a world0)) = closes world0.
Proof.
  cbv zeta.
  exact (proj2 (proj2 (main_early_exit forbidden_env
           (example_args [txt "Jenkinsfile"]) world0))
           (txt "https://example.net/") None None world0
           (RequestException "HTTPError" (txt "403 Client Error")) _
           eq_refl eq_refl).
Defined.

(** ** Where the credentials come from *)

Lemma lint_env_ext (E E' : env) (self : Jenkins) (path : str) (w : world) :
  server E' = server E -> fs E' = fs E ->
  lint E' self path w = lint E self path w.
Proof. intros Hs Hf. rewrite !lint_run, Hs, Hf. reflexivity. Qed.

Lemma lint_files_ext (f g : str -> M bool) :
  (forall p w, f p w = g p w) ->
  forall paths status w,
    lint_files f paths status w = lint_files g paths status w.
Proof.
  intros H. induction paths as [|p paths IH]; intros status w;
    [reflexivity|].
  cbn [lint_files].
  unfold bind, try_LinterError, ret, logging_error, emit_log.
  rewrite H. destruct (g p w) as [[b|e] w'].
  - apply IH.
  - destruct (is_LinterError e); [|reflexivity]. apply IH.
Qed.

Lemma connect_env_ext (E E' : env) (a : args) (url : str)
    (username password : option str) (w : world) :
  server E' = server E ->
  connect E' a url username password w = connect E a url username password w.
Proof.
  intros Hs. unfold connect, Jenkins_init, _get_crumb, _query,
    session_request. rewrite Hs. reflexivity.
Qed.

Lemma main_env_ext (E E' : env) (a : args) (w : world) :
  server E' = server E -> fs E' = fs E ->
  (forall w0, credentials E' a w0 = credentials E a w0) ->
  main E' a w = main E a w.
Proof.
  intros Hs Hf Hc. rewrite !main_run, Hc.
  destruct (credentials E a _) as [[[[[url username] password]|]|e] w1];
    try reflexivity.
  rewrite (connect_env_ext E E' a url username password w1 Hs).
  destruct (connect E a url username password w1) as [[[jenkins|]|e] w2];
    try reflexivity.
  unfold lint_session, with_.
  rewrite (lint_files_ext (lint E' jenkins) (lint E jenkins)
             (fun p w0 => lint_env_ext E E' jenkins p w0 Hs Hf)).
  reflexivity.
Qed.

(** X11.  The environment comes first.  With a non-empty [JENKINS_URL]
    the configuration file is not consulted: two environments that
    differ in their configuration only give the same run.  Without
    [JENKINS_URL], or with an empty one, the configuration is used and
    [JENKINS_USERNAME] and [JENKINS_PASSWORD] are not read: two
    environments that differ in these variables only give the same
    run. *)
Theorem environment_first (E E' : env) (a : args) (w : world) :
  server E' = server E -> fs E' = fs E ->
  ((exists c url, environ E "JENKINS_URL" = Some (c :: url)) ->
   environ E' = environ E ->
   main E' a w = main E a w)
  /\ (environ E "JENKINS_URL" = None \/ environ E "JENKINS_URL" = Some [] ->
      environ E' "JENKINS_URL" = None
      \/ environ E' "JENKINS_URL" = Some [] ->
      config E' = config E ->
      main E' a w = main E a w).
Proof.
  intros Hs Hf. split.
  - intros (c & url & Hu) He. apply main_env_ext; auto.
    intros w0. unfold credentials. rewrite He, Hu. reflexivity.
  - intros Hu Hu' Hc. apply main_env_ext; auto.
    intros w0. unfold credentials. rewrite Hc.
    destruct Hu as [-> | ->], Hu' as [-> | ->]; reflexivity.
Qed.

Lemma environment_first_witness :
  let E := json_env success_json in
  let E' := {| server := server E; fs := fs E; environ := environ E;
               config := fun _ _ => Ret (txt "http://other", None, None) |} in
  let a := example_args [txt "Jenkinsfile"] in
  (exists c url, environ E "JENKINS_URL" = Some (c :: url))
  /\ main E' a world0 = main E a world0.
Proof.
  cbv zeta.
  assert (H : exists c url,
            environ (json_env success_json) "JENKINS_URL" = Some (c :: url))
    by (eexists; eexists; reflexivity).
  split; [exact H|].
  exact (proj1 (environment_first (json_env success_json)
           {| server := server (json_env success_json);
              fs := fs (json_env success_json);
              environ := environ (json_env success_json);
              config := fun _ _ => Ret (txt "http://other", None, None) |}
           (example_args [txt "Jenkinsfile"]) world0 eq_refl eq_refl)
           H eq_refl).
Defined.

(** ** The configuration file *)

Lemma pop_cons {A} (x : A) (l : list A) :
  pop (x :: l) = match pop l with Some y => Some y | None => Some x end.
Proof.
  unfold pop. simpl. destruct (rev l) as [|y r]; reflexivity.
Qed.

Lemma pop_None {A} (l : list A) : pop l = None -> l = [].
Proof.
  destruct l as [|x l]; [reflexivity|]. rewrite pop_cons.
  destruct (pop l); discriminate.
Qed.

(** What [read] returns when no file stops it. *)
Lemma parser_read_ok (files : str -> config_file) (paths : list str) :
  forall read_ok,
    parser_read files paths = inr read_ok ->
    (forall p, In p paths -> files p = Missing \/ files p = Readable)
    /\ (read_ok = [] -> forall p, In p paths -> files p = Missing)
    /\ (forall x, pop read_ok = Some x ->
          exists before after,
            paths = before ++ x :: after /\ files x = Readable
            /\ forall p, In p after -> files p = Missing).
Proof.
  induction paths as [|q paths IH]; intros read_ok H; simpl in H.
  - injection H as <-. repeat split; try contradiction. discriminate.
  - destruct (files q) eqn:Hq; [|discriminate|discriminate|].
    + destruct (IH read_ok H) as (H1 & H2 & H3). split; [|split].
      * intros p [<-|Hin]; auto.
      * intros Hn p [<-|Hin]; auto.
      * intros x Hx. destruct (H3 x Hx) as (before & after & -> & Hr & Ha).
        exists (q :: before), after. auto.
    + destruct (parser_read files paths) as [m|ok] eqn:Hr; [discriminate|].
      injection H as <-. destruct (IH ok eq_refl) as (H1 & H2 & H3).
      split; [|split].
      * intros p [<-|Hin]; auto.
      * discriminate.
      * intros x Hx. rewrite pop_cons in Hx.
        destruct (pop ok) as [y|] eqn:Hp.
        -- injection Hx as <-.
           destruct (H3 y eq_refl) as (before & after & -> & Hy & Ha).
           exists (q :: before), after. auto.
        -- injection Hx as <-. exists [], paths. split; [reflexivity|].
           split; [exact Hq|]. apply H2, pop_None, Hp.
Qed.

Lemma parser_read_missing (files : str -> config_file) (paths : list str) :
  (forall p, In p paths -> files p = Missing) ->
  parser_read files paths = inr [].
Proof.
  induction paths as [|q paths IH]; intros H; [reflexivity|].
  simpl. rewrite (H q (or_introl eq_refl)).
  apply IH. intros p Hin. apply H. right. exact Hin.
Qed.

(** The exception of [read] is the one of the first file that is neither
    skipped nor read. *)
Lemma parser_read_stops (files : str -> config_file)
    (before after : list str) (p : str) :
  (forall q, In q before -> files q = Missing \/ files q = Readable) ->
  parser_read files (before ++ p :: after)
  = match files p with
    | Malformed m => inl (ParsingError m)
    | NotText => inl DecodeError
    | _ => parser_read files (before ++ p :: after)
    end.
Proof.
  induction before as [|q before IH]; intros H.
  - simpl. destruct (files p); reflexivity.
  - specialize (IH (fun x Hx => H x (or_intror Hx))).
    cbn [app parser_read].
    destruct (H q (or_introl eq_refl)) as [-> | ->].
    + exact IH.
    + destruct (files p); try reflexivity; rewrite IH; reflexivity.
Qed.

Lemma parser_read_error (files : str -> config_file) (paths : list str) :
  forall e,
    parser_read files paths = inl e ->
    exists p,
      In p paths
      /\ match e with
         | ParsingError m => files p = Malformed m
         | DecodeError => files p = NotText
         end.
Proof.
  induction paths as [|q paths IH]; intros e H; simpl in H; [discriminate|].
  destruct (files q) eqn:Hq.
  - destruct (IH e H) as (p & Hin & Hp). exists p.
    split; [right; exact Hin|exact Hp].
  - injection H as <-. exists q. split; [left; reflexivity|exact Hq].
  - injection H as <-. exists q. split; [left; reflexivity|exact Hq].
  - destruct (parser_read files paths) as [e'|ok]; [|discriminate].
    injection H as <-. destruct (IH e' eq_refl) as (p & Hin & Hp).
    exists p. split; [right; exact Hin|exact Hp].
Qed.

Lemma plural_one (n : nat) : plural n = if n =? 1 then [] else txt "s".
Proof.
  unfold plural. destruct (Nat.eqb_spec n 1) as [->|Hn]; [reflexivity|].
  destruct (Nat.lxor n 1) as [|k] eqn:Hx.
  - exfalso. apply Hn. apply (proj1 (Nat.lxor_eq_0_iff n 1)), Hx.
  - cbn. destruct k; reflexivity.
Qed.

(** X12.  [Config.__init__].  When no candidate file can be opened it
    raises a [ConfigError] whose message lists the candidates, with
    [file] for one candidate and [files] for any other number.  The
    first candidate that can be opened but not read decides the failure:
    a [ConfigError] with the message of the parser for a malformed file,
    the uncaught [ValueError] for a file that cannot be decoded; no other
    exception leaves it, and only a [ConfigError] when every candidate
    can be decoded.  When it succeeds, the path it keeps is the last
    candidate that could be opened, and every candidate was either
    missing or read. *)
Theorem config_init_behaviour (C : config_env) (path : option str) :
  let paths :=
    match path with Some p => [p] | None => _DEFAULT_CONFIG_PATHS C end in
  ((forall p, In p paths -> config_files C p = Missing) ->
   Config_init C path = Raise (ConfigError (Msg (unable_to_load paths))))
  /\ (forall before p after,
        paths = before ++ p :: after ->
        (forall q, In q before ->
           config_files C q = Missing \/ config_files C q = Readable) ->
        (forall m, config_files C p = Malformed m ->
           Config_init C path = Raise (ConfigError (Msg m)))
        /\ (config_files C p = NotText ->
            Config_init C path = Raise ValueError))
  /\ (forall e,
        Config_init C path = Raise e ->
        (exists m, e = ConfigError (Msg m))
        \/ (e = ValueError
            /\ exists p, In p paths /\ config_files C p = NotText))
  /\ (forall c,
        Config_init C path = Ret c ->
        (exists before after,
           paths = before ++ _path c :: after
           /\ config_files C (_path c) = Readable
           /\ forall p, In p after -> config_files C p = Missing)
        /\ forall p, In p paths ->
             config_files C p = Missing \/ config_files C p = Readable)
  /\ (forall n, plural n = if n =? 1 then [] else txt "s")
  /\ (forall p,
        unable_to_load [p] = txt "Unable to load configuration file " ++ p)
  /\ (forall p q,
        unable_to_load [p; q]
        = txt "Unable to load configuration files " ++ p ++ txt " or " ++ q).
Proof.
  cbv zeta. unfold Config_init.
  set (paths := match path with
                | Some p => [p]
                | None => _DEFAULT_CONFIG_PATHS C
                end).
  split; [|split; [|split; [|split]]].
  - intros H. rewrite (parser_read_missing _ _ H). reflexivity.
  - intros before p after -> Hb.
    rewrite (parser_read_stops _ before after p Hb).
    split; [intros m Hp|intros Hp]; rewrite Hp; reflexivity.
  - intros e. destruct (parser_read (config_files C) paths) as [r|ok] eqn:Hr.
    + destruct (parser_read_error _ _ r Hr) as (p & Hin & Hp).
      destruct r as [m|]; intros H; injection H as <-; eauto.
    + destruct (pop ok); [discriminate|]. intros H; injection H as <-. eauto.
  - intros c. destruct (parser_read (config_files C) paths) as [[m|]|ok] eqn:Hr;
      [discriminate|discriminate|].
    destruct (parser_read_ok _ _ ok Hr) as (H1 & _ & H3).
    destruct (pop ok) as [x|] eqn:Hp; [|discriminate].
    intros H; injection H as <-. cbn [_path]. split; [apply H3, eq_refl|].
    exact H1.
  - split; [exact plural_one|]. split; intros; reflexivity.
Qed.

Lemma config_init_behaviour_witness :
  (forall p, In p (_DEFAULT_CONFIG_PATHS example_config) ->
             config_files example_config p = Missing)
  /\ Config_init example_config None
     = Raise (ConfigError
                (Msg (unable_to_load (_DEFAULT_CONFIG_PATHS example_config)))).
Proof.
  assert (H : forall p, In p (_DEFAULT_CONFIG_PATHS example_config) ->
                config_files example_config p = Missing)
    by (intros p [<-|[<-|[]]]; reflexivity).
  split; [exact H|].
  exact (proj1 (config_init_behaviour example_config None) H).
Defined.

(** X13.  [Config.get] returns a triple only for a profile that exists
    and whose [url] is not empty: the triple is the [url], the
    [username] and the [password] of the profile, the last two [None]
    when the profile has no such key.  A profile that does not exist is
    reported before any key is read; a [url] that is absent and a [url]
    that is empty are reported alike; both reports are [ConfigError]s
    that name the profile and the file.  An exception of the parser on a
    value is not converted: it leaves [get] as it is. *)
Theorem config_get_behaviour (self : Config) (profile : str) :
  let parser := _config_parser self in
  (has_section parser profile = false ->
   Config_get self profile
   = Raise (ConfigError (Msg (missing_profile profile (_path self)))))
  /\ (has_section parser profile = true ->
      section_get parser profile (txt "url") = Ret None
      \/ section_get parser profile (txt "url") = Ret (Some []) ->
      Config_get self profile
      = Raise (ConfigError (Msg (missing_url profile (_path self)))))
  /\ (forall url username password,
        Config_get self profile = Ret (url, username, password) ->
        has_section parser profile = true /\ url <> []
        /\ section_get parser profile (txt "url") = Ret (Some url)
        /\ section_get parser profile (txt "username") = Ret username
        /\ section_get parser profile (txt "password") = Ret password)
  /\ (forall e,
        Config_get self profile = Raise e ->
        e = ConfigError (Msg (missing_profile profile (_path self)))
        \/ e = ConfigError (Msg (missing_url profile (_path self)))
        \/ exists key, section_get parser profile key = Raise e).
Proof.
  cbv zeta. unfold Config_get.
  destruct (has_section (_config_parser self) profile).
  2:{ cbn [negb]. repeat split; try discriminate.
      intros e H; injection H as <-. auto. }
  cbn [negb].
  destruct (section_get (_config_parser self) profile (txt "url"))
    as [[[|c url]|]|e1] eqn:Hu; cbn [obind].
  - repeat split; try discriminate.
    intros e H; injection H as <-. auto.
  - destruct (section_get (_config_parser self) profile (txt "username"))
      as [username|e2] eqn:Hn; cbn [obind].
    + destruct (section_get (_config_parser self) profile (txt "password"))
        as [password|e3] eqn:Hp; cbn [obind].
      * split; [discriminate|]. split; [intros _ [H|H]; discriminate H|].
        split; [|discriminate].
        intros url' u' p' H; injection H as <- <- <-.
        repeat split; auto; discriminate.
      * split; [discriminate|]. split; [intros _ [H|H]; discriminate H|].
        split; [discriminate|].
        intros e H; injection H as <-. right; right. eauto.
    + split; [discriminate|]. split; [intros _ [H|H]; discriminate H|].
      split; [discriminate|].
      intros e H; injection H as <-. right; right. eauto.
  - repeat split; try discriminate.
    intros e H; injection H as <-. auto.
  - split; [discriminate|]. split; [intros _ [H|H]; discriminate H|].
    split; [discriminate|].
    intros e H; injection H as <-. right; right. eauto.
Qed.

Lemma config_get_behaviour_witness :
  let self := {| _config_parser := example_parser; _path := txt "/etc/rc" |} in
  has_section example_parser (txt "jenkins") = false
  /\ Config_get self (txt "jenkins")
     = Raise (ConfigError
                (Msg (missing_profile (txt "jenkins") (txt "/etc/rc")))).
Proof.
  cbv zeta. split; [reflexivity|].
  exact (proj1 (config_get_behaviour
           {| _config_parser := example_parser; _path := txt "/etc/rc" |}
           (txt "jenkins")) eq_refl).
Defined.

(** X14.  [main] configured from files (no [JENKINS_URL]): when no
    candidate file can be opened, or the profile asked for is not in the
    file, [main] logs the report of [Config] and returns 1 without
    sending a request or opening a file; when [Config] gives a triple,
    these are the credentials of the run. *)
Theorem main_configured_from_files
    (C : config_env) (E : env) (a : args) (w : world) :
  let paths :=
    match a_config a with
    | Some p => [p]
    | None => _DEFAULT_CONFIG_PATHS C
    end in
  let w0 := snd (set_debug (a_debug a) w) in
  ((forall p, In p paths -> config_files C p = Missing) ->
   main (file_env C E) a w
   = (Ret 1%Z, snd (emit_log (unable_to_load paths) w0)))
  /\ (forall c,
        Config_init C (a_config a) = Ret c ->
        has_section (_config_parser c) (a_profile a) = false ->
        main (file_env C E) a w
        = (Ret 1%Z,
           snd (emit_log (missing_profile (a_profile a) (_path c)) w0)))
  /\ (forall c url username password,
        Config_init C (a_config a) = Ret c ->
        Config_get c (a_profile a) = Ret (url, username, password) ->
        credentials (file_env C E) a w0
        = (Ret (Some (url, username, password)), w0)).
Proof.
  cbv zeta. split; [|split].
  - intros H. rewrite main_run.
    rewrite (credentials_logged_config (file_env C E) a _
               (Msg (unable_to_load
                       match a_config a with
                       | Some p => [p]
                       | None => _DEFAULT_CONFIG_PATHS C
                       end))); [reflexivity|left; reflexivity|].
    cbn [file_env config]. unfold load_config, Config_init.
    rewrite (parser_read_missing _ _ H). reflexivity.
  - intros c Hi Hs. rewrite main_run.
    rewrite (credentials_logged_config (file_env C E) a _
               (Msg (missing_profile (a_profile a) (_path c))));
      [reflexivity|left; reflexivity|].
    cbn [file_env config]. unfold load_config. rewrite Hi. cbn [obind].
    unfold Config_get. rewrite Hs. reflexivity.
  - intros c url username password Hi Hg.
    unfold credentials, try_LinterError, bind, lift, ret.
    cbn [file_env environ config String.eqb]. unfold load_config.
    rewrite Hi. cbn [obind]. rewrite Hg. reflexivity.
Qed.

Lemma main_configured_from_files_witness :
  let a := example_args [txt "Jenkinsfile"] in
  (forall p, In p (_DEFAULT_CONFIG_PATHS example_config) ->
             config_files example_config p = Missing)
  /\ main (file_env example_config (json_env success_json)) a world0
     = (Ret 1%Z,
        snd (emit_log
               (unable_to_load (_DEFAULT_CONFIG_PATHS example_config))
               (snd (set_debug (a_debug a) world0)))).
Proof.
  cbv zeta.
  assert (H : forall p, In p (_DEFAULT_CONFIG_PATHS example_config) ->
                config_files example_config p = Missing)
    by (intros p [<-|[<-|[]]]; reflexivity).
  split; [exact H|].
  exact (proj1 (main_configured_from_files example_config
           (json_env success_json) (example_args [txt "Jenkinsfile"])
           world0) H).
Defined.

(** ** The colon and the newline of [message_re] *)

(** Whether a message without a final newline ends with a location can
    be told from the match. *)
Lemma location_decided (s : str) :
  ends_with is_newline s = false -> has_location s \/ ~ has_location s.
Proof.
  intros Hnl.
  destruct (re_match_total s) as [v Hv].
  destruct (re_match_shape s v Hv) as (Heol & wm & [[Hc E]|H]).
  - right. intros (pre & sp & ln & col & Es & Hsp & Hln & Hcol).
    assert (Hl : locate s = Ret (1%Z, 1%Z, wm)).
    { unfold locate, int_group, group. rewrite Hv, Hc. reflexivity. }
    rewrite E in Hnl. rewrite (ends_with_newline_eol _ _ Hnl Heol) in E.
    rewrite app_nil_r in E. subst wm.
    pose proof (locate_located pre sp ln col [] Hsp Hln Hcol eq_refl) as Hp.
    rewrite app_nil_r, <- Es, Hl in Hp.
    destruct (located_cases ln col (drop_colon (rstrip pre)) Hln Hcol)
      as [(_ & _ & Hr)|(_ & Hr)]; rewrite Hr in Hp; [|discriminate].
    injection Hp as _ _ Hp.
    pose proof (drop_colon_length pre) as Hlen. rewrite <- Hp, Es in Hlen.
    pose proof (location_length sp ln col []) as Hloc.
    rewrite length_app in Hlen. rewrite app_nil_r in Hloc. lia.
  - left. destruct H as (w & c0 & sp1 & sp2 & ln & col & _ & E & Hsp2
                         & Hln & Hcol).
    rewrite E, app_assoc in Hnl.
    rewrite (ends_with_newline_eol _ _ Hnl Heol), app_nil_r in E.
    exists (wm ++ c0 ++ sp1), sp2, ln, col. auto.
Qed.

Lemma tail_cases n c w rest c' :
  matches tail_re n c w rest c' ->
  at_eol rest = true
  /\ ((w = [] /\ c' = c)
      \/ exists c0 sp1 sp2 ln col,
           w = c0 ++ sp1 ++ location sp2 ln col
           /\ forallb is_space sp2 = true /\ number ln /\ number col).
Proof.
  intros Hm. unfold tail_re in Hm; cbn [matches] in Hm.
  destruct Hm as (w1 & w2 & c1 & -> & [(c2 & Hs & ->)|[-> ->]]
                  & (Heol & -> & ->)).
  - split; [assumption|]. right.
    apply suffix_shape in Hs
      as (c0 & sp1 & sp2 & ln & col & -> & _ & _ & Hsp2 & Hln & Hcol & _).
    exists c0, sp1, sp2, ln, col. rewrite app_nil_r. auto.
  - split; [assumption|]. left. auto.
Qed.

(** The location step on a message without a location, followed by a
    newline: [$] holds before the newline, which is left out. *)
Lemma locate_plain_newline (s : str) :
  ~ has_location s ->
  locate (s ++ ["010"%char]) = Ret (1%Z, 1%Z, s).
Proof.
  intros Hno.
  unfold locate, re_match. rewrite message_re_eq. cbn [run Nat.eqb].
  set (k0 := fun (n : nat) (l : str) (c : caps) =>
               Some {| m_end := n; m_rest := l; m_caps := c |}).
  set (t := s ++ ["010"%char]).
  set (K := fun (n' : nat) (l' : str) (c' : caps) =>
              run tail_re k0 n' l' (("message"%string, firstn (n' - 0) t) :: c')).
  assert (Hacc : K (0 + List.length s) ["010"%char] [] <> None).
  { unfold K, tail_re. cbn [run].
    match goal with |- match ?x with _ => _ end <> None =>
      destruct x; [discriminate|] end.
    cbn. discriminate. }
  destruct (K (0 + List.length s) ["010"%char] []) as [v|] eqn:Hv;
    [clear Hacc|congruence].
  change (rep_lazy any_char K 0 t [])
    with (rep_lazy any_char K 0 (s ++ ["010"%char]) []).
  rewrite (rep_lazy_first any_char K s _ 0 [] v (forallb_any s)); auto.
  - unfold K in Hv. apply run_sound in Hv as (w & rest & c' & E & Hm & Hk).
    apply tail_cases in Hm as (_ & [[-> ->]|H]).
    + unfold k0 in Hk; injection Hk as <-.
      unfold group, int_group; cbn.
      rewrite Nat.sub_0_r. unfold t.
      rewrite firstn_app, Nat.sub_diag, firstn_all.
      simpl; rewrite app_nil_r. reflexivity.
    + exfalso. destruct H as (c0 & sp1 & sp2 & ln & col & -> & _).
      apply (f_equal (@List.length ascii)) in E.
      rewrite !length_app in E.
      pose proof (location_length sp2 ln col []) as Hloc.
      rewrite app_nil_r in Hloc. simpl in E. lia.
  - intros w1 w2 -> Hne. unfold K.
    destruct (run tail_re k0 _ _ _) eqn:H; [exfalso|reflexivity].
    apply run_sound in H as (w & rest & c' & E & Hm & _).
    apply tail_cases in Hm as (Heol & [[-> _]|H]).
    + simpl in E. subst rest. destruct w2 as [|x w2]; [congruence|].
      destruct w2; discriminate Heol.
    + destruct H as (c0 & sp1 & sp2 & ln & col & -> & Hsp2 & Hln & Hcol).
      apply at_eol_cases in Heol as [-> | ->].
      * rewrite app_nil_r in E. unfold location in E.
        rewrite !app_assoc in E. apply app_inj_tail in E as [_ E].
        discriminate E.
      * apply app_inj_tail in E as [E _]. apply Hno.
        exists (w1 ++ c0 ++ sp1), sp2, ln, col.
        rewrite E, <- !app_assoc. auto.
Qed.

(** X15.  The colon of the second group.  For every message that ends
    with a location, or with a location and a newline, whose numbers
    [int] converts (at most 4300 digits each), [_parse_error] returns the
    numbers of the location and the text before it, without its trailing
    whitespace and then without one final colon, normalized.  In
    particular one colon written before the location is removed from the
    message, and only one, whatever the message is. *)
Theorem parse_error_drops_colon :
  (forall pre sp ln col nl,
     forallb is_space sp = true -> number ln -> number col ->
     fits ln -> fits col ->
     at_eol nl = true ->
     _parse_error (pre ++ location sp ln col ++ nl)
     = Ret (int_of_digits ln, int_of_digits col,
            normalize (drop_colon (rstrip pre))))
  /\ (forall m sp1 sp2 ln col,
        forallb is_space sp1 = true -> forallb is_space sp2 = true ->
        number ln -> number col ->
        fits ln -> fits col ->
        _parse_error (m ++ txt ":" ++ sp1 ++ location sp2 ln col)
        = Ret (int_of_digits ln, int_of_digits col, normalize m)).
Proof.
  split.
  - intros pre sp ln col nl Hsp Hln Hcol Hfl Hfc Hnl. unfold _parse_error.
    rewrite locate_located, located_fits; auto.
  - intros m sp1 sp2 ln col Hsp1 Hsp2 Hln Hcol Hfl Hfc. unfold _parse_error.
    pose proof (locate_colon m sp1 sp2 ln col [] Hsp1 Hsp2 Hln Hcol eq_refl)
      as H.
    rewrite app_nil_r in H. rewrite H, located_fits; auto.
Qed.

Lemma parse_error_drops_colon_witness :
  _parse_error (txt "expected a step::" ++ txt ":" ++ txt " "
                ++ location (txt " ") (txt "3") (txt "7"))
  = Ret (3%Z, 7%Z, txt "expected a step::").
Proof.
  assert (H3 : number (txt "3")) by (split; [discriminate|reflexivity]).
  assert (H7 : number (txt "7")) by (split; [discriminate|reflexivity]).
  assert (F3 : fits (txt "3")) by (vm_compute; discriminate).
  assert (F7 : fits (txt "7")) by (vm_compute; discriminate).
  exact (proj2 parse_error_drops_colon (txt "expected a step::") (txt " ")
           (txt " ") (txt "3") (txt "7") eq_refl eq_refl H3 H7 F3 F7).
Defined.

(** X16.  The newline of [$].  A newline that ends the message is not
    part of the result: for every message that does not end with a
    newline, the message followed by one newline gives the triple of the
    message itself. *)
Theorem parse_error_final_newline (s : str) :
  ends_with is_newline s = false ->
  _parse_error (s ++ ["010"%char]) = _parse_error s.
Proof.
  intros Hnl. destruct (location_decided s Hnl) as [H|H].
  - destruct H as (pre & sp & ln & col & -> & Hsp & Hln & Hcol).
    unfold _parse_error. rewrite <- app_assoc.
    rewrite (locate_located pre sp ln col ["010"%char]); auto.
    pose proof (locate_located pre sp ln col [] Hsp Hln Hcol eq_refl) as H0.
    rewrite app_nil_r in H0. rewrite H0. reflexivity.
  - unfold _parse_error. rewrite locate_plain_newline, locate_plain; auto.
Qed.

Lemma parse_error_final_newline_witness :
  ends_with is_newline (txt "unexpected token @ line 12, column 3.") = false
  /\ _parse_error (txt "unexpected token @ line 12, column 3."
                   ++ ["010"%char])
     = _parse_error (txt "unexpected token @ line 12, column 3.").
Proof.
  split; [reflexivity|].
  apply (parse_error_final_newline
           (txt "unexpected token @ line 12, column 3.")).
  reflexivity.
Defined.
